(** * Camoco locality command: windowing, z-scores, FDR and the output guard

    Shallow embedding of [camoco/cli/commands/locality.py].  Every
    definition below is translated from the Python source; the line numbers
    in the comments refer to that file.

    Conventions.
    - Python [int] is [Z].  [a // b] is floor division and raises
      [ZeroDivisionError] when [b] is zero.
    - A Python exception is an explicit [Raise] result.
    - Real-valued columns are exact rationals ([Q]); the IEEE special values
      that the z-score column can hold are added by the type [fl].  Rounding
      of finite results is not modelled: no statement below depends on it. *)

From Stdlib Require Import ZArith QArith Lia String Ascii.
From stdpp Require Import base decidable list sorting gmap sets strings.

Local Open Scope Z_scope.

(** ** Python results *)

Module Py.

Inductive exn : Set :=
| ZeroDivisionError
| ValueError
| KeyError
| FileExistsError
| NotADirectoryError
| IsADirectoryError
| FileNotFoundError.

Inductive result (A : Type) : Type :=
| Ok (a : A)
| Raise (e : exn).

Arguments Ok {A} a.
Arguments Raise {A} e.

Definition bind {A B : Type} (r : result A) (k : A -> result B) : result B :=
  match r with
  | Ok a => k a
  | Raise e => Raise e
  end.

(** A list comprehension whose body may raise: the first exception wins. *)
Fixpoint comprehension {A B : Type} (f : A -> result B) (l : list A)
  : result (list B) :=
  match l with
  | [] => Ok []
  | x :: l' =>
      bind (f x) (fun y => bind (comprehension f l') (fun ys => Ok (y :: ys)))
  end.

(** [a // b] on ints. *)
Definition floordiv (a b : Z) : result Z :=
  if decide (b = 0) then Raise ZeroDivisionError else Ok (a / b).

(** [int(a / b)] on ints: true division, then truncation toward zero.  (The
    float quotient of two ints below 2^53 truncates to the exact integer
    quotient.) *)
Definition int_truediv (a b : Z) : result Z :=
  if decide (b = 0) then Raise ZeroDivisionError else Ok (Z.quot a b).

(** [max(xs)] of a sequence of ints; the empty sequence raises. *)
Definition max (xs : list Z) : result Z :=
  match xs with
  | [] => Raise ValueError
  | x :: xs' => Ok (foldl Z.max x xs')
  end.

End Py.

Import Py.

#[global] Instance result_bind : MBind result := fun _ _ k r => Py.bind r k.
#[global] Instance result_ret : MRet result := fun _ a => Ok a.

(** ** Windowing of the bootstrap population (lines 127-136) *)

Module Windowing.

(** [range(n)] *)
Definition range (n : nat) : list Z := seqZ 0 (Z.of_nat n).

(** Lines 130-132, with [n = len(bsloc)] and [w = args.regression_window_size]:
<<
    num_windows = len(bsloc) // args.regression_window_size
    window_ticks = len(bsloc) // num_windows
    bsloc['window'] = [int(i/window_ticks) for i in range(len(bsloc))]
>> *)
Definition assign_windows (w : Z) (n : nat) : result (list Z) :=
  num_windows ← floordiv (Z.of_nat n) w;
  window_ticks ← floordiv (Z.of_nat n) num_windows;
  comprehension (fun i => int_truediv i window_ticks) (range n).

(** [sum(bsloc['window'] == max_window)] *)
Definition count_eq (x : Z) (col : list Z) : Z :=
  Z.of_nat (length (filter (fun y => y = x) col)).

(** [c < w / 2]: an int against the true quotient of an int by two. *)
Definition lt_half (c w : Z) : bool :=
  negb (Qle_bool (inject_Z w / 2) (inject_Z c)).

(** Lines 134-136:
<<
    max_window = max(bsloc['window'])
    if sum(bsloc['window'] == max_window) < args.regression_window_size / 2:
        bsloc.loc[bsloc['window'] == max_window, 'window'] = max_window-1
>> *)
Definition merge_last (w : Z) (col : list Z) : result (list Z) :=
  max_window ← Py.max col;
  if lt_half (count_eq max_window col) w
  then Ok (map (fun x => if decide (x = max_window) then max_window - 1 else x) col)
  else Ok col.

(** Lines 130-136 together. *)
Definition windowing (w : Z) (n : nat) : result (list Z) :=
  col ← assign_windows w n;
  merge_last w col.

(** Number of distinct window indices in a window column. *)
Definition distinct_windows (col : list Z) : nat :=
  size (list_to_set col : gset Z).

End Windowing.

(** ** Real-valued cells *)

Module Fl.

(** A float64 cell: a finite value, or one of the IEEE special values. *)
Inductive fl : Type :=
| Fin (q : Q)
| PInf
| NInf
| NaN.

Definition of_int (z : Z) : fl := Fin (inject_Z z).

Definition is_zero (x : fl) : bool :=
  match x with
  | Fin q => Qeq_bool q 0
  | _ => false
  end.

(** [x >= y]: every comparison with NaN is false. *)
Definition ge (x y : fl) : bool :=
  match x, y with
  | NaN, _ | _, NaN => false
  | PInf, _ => true
  | _, NInf => true
  | NInf, _ => false
  | Fin _, PInf => false
  | Fin a, Fin b => Qle_bool b a
  end.

(** [x < y] *)
Definition lt (x y : fl) : bool :=
  match x, y with
  | NaN, _ | _, NaN => false
  | PInf, _ => false
  | _, NInf => false
  | NInf, _ => true
  | Fin _, PInf => true
  | Fin a, Fin b => negb (Qle_bool b a)
  end.

(** [x / y] on Python floats.  The operands of [x['resid']/x['bs_std']] are
    cells of a row yielded by [iterrows()]; the tables carry string columns
    ([Term], [iter_name]), so such a row has object dtype and its cells are
    Python [float] objects.  A zero divisor raises, whatever the dividend;
    NaN and the infinities propagate as in IEEE arithmetic. *)
Definition truediv (x y : fl) : result fl :=
  match y with
  | Fin b =>
      if Qeq_bool b 0 then Raise ZeroDivisionError
      else
        Ok match x with
           | Fin a => Fin (a / b)
           | PInf => if Qle_bool 0 b then PInf else NInf
           | NInf => if Qle_bool 0 b then NInf else PInf
           | NaN => NaN
           end
  | PInf | NInf =>
      Ok match x with
         | Fin _ => Fin 0
         | _ => NaN
         end
  | NaN => Ok NaN
  end.

End Fl.

Import Fl.

(** ** Tables *)

(** The iteration label of a row: ['emp'], ['bs' + str(x)] or ['fdr' + str(x)]. *)
Inductive label : Set :=
| Emp
| Bs (x : nat)
| Fdr (x : nat).

#[global] Instance label_eq_dec : EqDecision label.
Proof. solve_decision. Defined.

(** Distinct iteration numbers give distinct labels. *)
#[global] Instance Fdr_inj : Inj (=) (=) Fdr.
Proof. by intros x y [= ->]. Qed.

(** A row as [cob.locality] returns it without regression columns. *)
Record degrees : Type := Degrees {
  d_iter_name : label;
  d_local : Q;
  d_global : Q
}.

(** A row after the regression columns are attached. *)
Record row : Type := Row {
  iter_name : label;
  local : Q;
  global : Q;
  fitted : Q;
  resid : Q
}.

(** A row after [bs_std] and [zscore] are attached. *)
Record zrow : Type := ZRow {
  z_row :> row;
  bs_std : fl;
  zscore : fl
}.

(** An empirical row with its [fdr] cell; [None] is a cell that no
    assignment has filled (pandas shows it as NaN). *)
Record frow : Type := FRow {
  f_row :> zrow;
  fdr : option Q
}.

(** ** Regression of local on global degree (lines 122-125 and 192-194) *)

Module Regression.

Definition Qsum (l : list Q) : Q := foldr Qplus 0%Q l.

(** [sm.OLS(endog, exog).fit()] for a single regressor column.  The design
    matrix is the [exog] column as passed: the source never adds a constant
    column to it.  The coefficient is the least-squares solution
    [pinv(exog) . endog], that is [sum(x*y)/sum(x*x)], and 0 for an all-zero
    regressor. *)
Definition params (endog exog : list Q) : Q :=
  let sxy := Qsum (zip_with Qmult exog endog) in
  let sxx := Qsum (zip_with Qmult exog exog) in
  if Qeq_bool sxx 0 then 0%Q else (sxy / sxx)%Q.

(** [OLS.fittedvalues] *)
Definition fittedvalues (endog exog : list Q) : list Q :=
  map (fun x => (x * params endog exog)%Q) exog.

(** [OLS.resid] *)
Definition residuals (endog exog : list Q) : list Q :=
  zip_with Qminus endog (fittedvalues endog exog).

(** Lines 123-125 (and 192-194 for [fdr]):
<<
    OLS = sm.OLS(bsloc['local'],bsloc['global']).fit()
    bsloc['fitted'] = OLS.fittedvalues
    bsloc['resid'] = OLS.resid
>> *)
Definition with_regression (t : list degrees) : list row :=
  let endog := map d_local t in
  let exog := map d_global t in
  let beta := params endog exog in
  map (fun d =>
         Row (d_iter_name d) (d_local d) (d_global d)
             (d_global d * beta)%Q
             (d_local d - d_global d * beta)%Q) t.

(** Lines 107-117 and 123-125: the concatenated enrichment-bootstrap tables,
    iteration [x] labelled ['bs' + str(x)], with their regression columns.
    [bootstrap x] stands for the (local, global) degrees that
    [cob.locality(cob.refgen.bootstrap_candidate_genes(..))] returns in
    iteration [x]. *)
Definition bsloc_population (num_bootstraps : nat)
  (bootstrap : nat -> list (Q * Q)) : list row :=
  with_regression
    (concat
       (map (fun x => map (fun d => Degrees (Bs x) d.1 d.2) (bootstrap x))
            (seq 0 num_bootstraps))).

End Regression.

(** ** Z-scores (lines 168-169, 172-173 and 201-202) *)

Module ZScore.

Section Standardizer.

(** [fit_std]: the smoothed estimator that maps a fitted value to a residual
    standard deviation (lines 138-164; lowess over a nearest-key dictionary). *)
Variable fit_std : Q -> fl.

(** [x['resid']/x['bs_std']] for one row. *)
Definition zscore_of (r : row) : result zrow :=
  let sd := fit_std (fitted r) in
  z ← truediv (Fin (resid r)) sd;
  Ok (ZRow r sd z).

(** Lines 168-169 (and 172-173, 201-202):
<<
    loc['bs_std'] = [fit_std[x] for x in loc['fitted']]
    loc['zscore'] = [x['resid']/x['bs_std'] for i,x in loc.iterrows()]
>> *)
Definition with_zscore (t : list row) : result (list zrow) :=
  comprehension zscore_of t.

End Standardizer.

End ZScore.

(** ** FDR population and FDR estimation (lines 179-224) *)

Module FDR.

(** [max(loc['global'])]; the empty column raises. *)
Definition Qmax2 (a b : Q) : Q := if Qle_bool b a then a else b.

Definition max_global (col : list Q) : result Q :=
  match col with
  | [] => Raise ValueError
  | x :: col' => Ok (foldl Qmax2 x col')
  end.

(** [.sort('global')], ascending. *)
Definition sort_global (t : list degrees) : list degrees :=
  merge_sort (fun a b => Is_true (Qle_bool (d_global a) (d_global b))) t.

(** Lines 180-194: the concatenated bootstrap tables, iteration [x] labelled
    ['fdr' + str(x)], sorted by global degree and regressed on their own.
    [bootstrap x] stands for the (local, global) degrees that
    [cob.locality(cob.refgen.bootstrap_candidate_genes(..))] returns in
    iteration [x]. *)
Definition population (num_bootstraps : nat) (bootstrap : nat -> list (Q * Q))
  : list row :=
  Regression.with_regression
    (sort_global
       (concat
          (map (fun x => map (fun d => Degrees (Fdr x) d.1 d.2) (bootstrap x))
               (seq 0 num_bootstraps)))).

(** Line 197:
<<
    fdr = fdr[fdr['global'] <= max(loc['global'])]
>> *)
Definition restrict_global (loc : list zrow) (fdr : list row)
  : result (list row) :=
  top ← max_global (map (fun r : zrow => global r) loc);
  Ok (filter (fun r => Is_true (Qle_bool (global r) top)) fdr).

(** [df.groupby('iter_name')]: one group per label that occurs in the table,
    holding the rows that carry it.  (pandas orders the groups by key; the
    quantities taken from the groups below do not depend on their order.) *)
Definition groupby_iter_name (t : list zrow) : list (label * list zrow) :=
  map (fun k => (k, filter (fun r : zrow => iter_name r = k) t))
      (remove_dups (map (fun r : zrow => iter_name r) t)).

(** [.mean()] of a column of ints. *)
Definition mean_int (col : list Z) : Q :=
  (inject_Z (foldr Z.add 0%Z col) / inject_Z (Z.of_nat (length col)))%Q.

(** [.mean()] of a real column. *)
Definition mean (col : list Q) : Q :=
  (Regression.Qsum col / inject_Z (Z.of_nat (length col)))%Q.

(** [t[t.zscore >= threshold]] *)
Definition at_least {A : Type} (z : A -> fl) (threshold : Z) (t : list A)
  : list A :=
  filter (fun r => Is_true (ge (z r) (of_int threshold))) t.

(** Lines 206-210:
<<
    fdr_indices = fdr[fdr.zscore >= zscore]
    if len(fdr_indices) > 0:
        num_random = fdr_indices.groupby('iter_name').apply(len).mean()
    else:
        num_random = 0
>> *)
Definition num_random (fdr : list zrow) (threshold : Z) : Q :=
  let fdr_indices := at_least zscore threshold fdr in
  if decide (0 < length fdr_indices)%nat
  then mean_int (map (fun g => Z.of_nat (length g.2))
                     (groupby_iter_name fdr_indices))
  else 0%Q.

(** Line 211: [num_real = sum(loc.zscore >= zscore)] *)
Definition num_real (loc : list frow) (threshold : Z) : Z :=
  Z.of_nat (length (at_least (fun r : frow => zscore r) threshold loc)).

(** Lines 212-215:
<<
    if num_real != 0 and num_random != 0:
        zfdr = num_random/num_real
    else:
        zfdr = 1
>> *)
Definition zfdr (n_real : Z) (n_random : Q) : Q :=
  if negb (n_real =? 0) && negb (Qeq_bool n_random 0)
  then (n_random / inject_Z n_real)%Q
  else 1%Q.

(** Line 216: [loc.loc[loc.zscore>=zscore,'fdr'] = zfdr] *)
Definition assign_fdr (threshold : Z) (v : Q) (loc : list frow) : list frow :=
  map (fun r : frow =>
         if ge (zscore r) (of_int threshold) then FRow r (Some v) else r) loc.

(** One pass of the loop body, lines 206-216. *)
Definition threshold_pass (fdr : list zrow) (loc : list frow) (threshold : Z)
  : list frow :=
  assign_fdr threshold
             (zfdr (num_real loc threshold) (num_random fdr threshold)) loc.

(** Lines 204-216: [for zscore in range(0,8)], on the empirical table as it
    stands after line 170 and whose [fdr] column does not exist yet. *)
Definition gene_specific_fdr (loc : list zrow) (fdr : list zrow) : list frow :=
  foldl (threshold_pass fdr) (map (fun r => FRow r None) loc) (seqZ 0 8).

(** The threshold whose pass writes last into a row with z-score [z]. *)
Definition last_hit (z : fl) (thresholds : list Z) : option Z :=
  foldl (fun o t => if ge z (of_int t) then Some t else o) None thresholds.

(** What the loop leaves in a row: the value of the last pass that wrote
    into it, or its previous content when no pass did. *)
Definition settle (fdr : list zrow) (loc : list frow) (ts : list Z) (r : frow)
  : frow :=
  match last_hit (zscore r) ts with
  | Some t => FRow r (Some (zfdr (num_real loc t) (num_random fdr t)))
  | None => r
  end.

(** Lines 219-224:
<<
    loc = loc.groupby('Term').apply(np.mean)
    fdr = fdr.groupby('iter_name').apply(np.mean)
    average_resid = loc.ix[term.id].resid
    loc['pval'] = sum(
        [x >= average_resid for x in fdr.resid.values]
    )/len(fdr)
>>
    All rows of [loc] carry the current term, so the first group-by yields
    the single row of column means, and no row at all (a failed lookup) for
    an empty table. *)
Definition aggregate_pval (loc : list zrow) (fdr : list zrow) : result Q :=
  average_resid ←
    (match loc with
     | [] => Raise KeyError
     | _ => Ok (mean (map (fun r : zrow => resid r) loc))
     end);
  let fdr_resid :=
    map (fun g => mean (map (fun r : zrow => resid r) g.2))
        (groupby_iter_name fdr) in
  let hits :=
    length (filter (fun x => Is_true (Qle_bool average_resid x)) fdr_resid) in
  if decide (length fdr_resid = 0%nat)
  then Raise ZeroDivisionError
  else Ok (inject_Z (Z.of_nat hits) / inject_Z (Z.of_nat (length fdr_resid)))%Q.

Section Stage.

Variable fit_std : Q -> fl.

(** Lines 197-202: the FDR table that both modes read.  (The [window]
    column of line 198 is read by the plots only.) *)
Definition scored (loc : list zrow) (fdr : list row) : result (list zrow) :=
  kept ← restrict_global loc fdr;
  ZScore.with_zscore fit_std kept.

(** Lines 196-224, from the scored empirical table and the regressed FDR
    population to the empirical table that is returned. *)
Definition estimate (gene_specific : bool) (loc : list zrow) (fdr : list row)
  : result (list frow + Q) :=
  fdr' ← scored loc fdr;
  if gene_specific
  then Ok (inl (gene_specific_fdr loc fdr'))
  else p ← aggregate_pval loc fdr'; Ok (inr p).

End Stage.

(** Lines 284-289 of [plot_fdr], the per-iteration counts behind the plotted
    bootstrap curve:
<<
    fdr.groupby('iter_name').apply(
        lambda df: sum(np.logical_and(
            df['zscore'] >= x,
            df['local'] >= args.min_fdr_degree
        ))
    )
>> *)
Definition plot_fdr_counts (min_fdr_degree : Q) (fdr : list zrow) (x : Q)
  : list Z :=
  map (fun g =>
         Z.of_nat
           (length
              (filter (fun r : zrow =>
                         Is_true (ge (zscore r) (Fin x)
                                  && Qle_bool min_fdr_degree (local r)))
                      g.2)))
      (groupby_iter_name fdr).

(** The reading of [num_random] in the specification, for comparison: the
    mean over all iterations [0 .. num_bootstraps-1] of the number of rows of
    that iteration at or above the threshold. *)
Definition num_random_all_iterations (num_bootstraps : nat) (fdr : list zrow)
  (threshold : Z) : Q :=
  mean_int
    (map (fun x =>
            Z.of_nat (length (filter (fun r : zrow => iter_name r = Fdr x)
                                     (at_least zscore threshold fdr))))
         (seq 0 num_bootstraps)).

End FDR.

(** ** The command driver (lines 22-74) *)

Module Driver.

Local Open Scope string_scope.

(** [s.replace('.csv','')]: every occurrence, scanning left to right. *)
Fixpoint remove_csv (s : string) : string :=
  match s with
  | String "." (String "c" (String "s" (String "v" rest))) => remove_csv rest
  | String c rest => String c (remove_csv rest)
  | EmptyString => EmptyString
  end.

(** ["{}_Locality.csv".format(out.replace('.csv',''))] *)
Definition locality_csv (out : string) : string :=
  remove_csv out ++ "_Locality.csv".

(** [p[:p.rfind('/')+1]] *)
Fixpoint head_of (p : string) : string :=
  match p with
  | EmptyString => EmptyString
  | String c rest =>
      match head_of rest with
      | EmptyString => if Ascii.eqb c "/" then String c EmptyString else EmptyString
      | h => String c h
      end
  end.

(** [s.rstrip('/')] *)
Fixpoint rstrip_slash (s : string) : string :=
  match s with
  | EmptyString => EmptyString
  | String c rest =>
      match rstrip_slash rest with
      | EmptyString => if Ascii.eqb c "/" then EmptyString else String c EmptyString
      | r => String c r
      end
  end.

(** [os.path.dirname(p)] for POSIX paths: the head up to the last slash,
    without its trailing slashes unless it consists of slashes only. *)
Definition dirname (p : string) : string :=
  let head := head_of p in
  match rstrip_slash head with
  | EmptyString => head
  | stripped => stripped
  end.


Section Run.

(** A term of the GWAS with its id, the table that [generate_data] returns
    for it (or the exception it raises), all outside this function. *)
Variable term : Type.
Variable term_id : term -> string.
Variable table : Type.
Variable generate_data : term -> result table.

Inductive event : Type :=
| Printed (msg : string)
| MadeDirs (dir : string)
| Analyzed (t : term)
| SavedFig (path : string)
| WroteCsv (path : string) (tables : list table).

(** The file system and what the run has done so far (latest last):
    [paths] holds every path that exists, [dirs] those of them that are
    directories.  Paths are compared as written. *)
Record world : Type := Filesystem {
  paths : gset string;
  dirs : gset string;
  trace : list event
}.

(** A world in which every existing path is a regular file. *)
Definition World (ps : gset string) (tr : list event) : world :=
  Filesystem ps ∅ tr.

Definition emit (e : event) (w : world) : world :=
  Filesystem (paths w) (dirs w) (trace w ++ [e]).

(** A regular file stands where [p] needs a directory: some existing
    non-directory [f] with [f/] a prefix of [p]. *)
Definition file_in_path (w : world) (p : string) : Prop :=
  set_Exists (fun f => (f ∉ dirs w) /\ (String.prefix (f ++ "/") p = true))
             (paths w).

(** [os.makedirs(d, exist_ok=True)]: [FileExistsError] when [d] exists and
    is not a directory, [NotADirectoryError] when a regular file stands in
    its path; otherwise [d] is a directory afterwards (and so are its
    ancestors, which nothing below looks at). *)
Definition makedirs (d : string) (w : world) : world * result unit :=
  if decide ((d ∈ paths w) /\ (d ∉ dirs w)) then (w, Raise FileExistsError)
  else if decide (file_in_path w d) then (w, Raise NotADirectoryError)
  else (Filesystem ({[d]} ∪ paths w) ({[d]} ∪ dirs w)
                   (trace w ++ [MadeDirs d]),
        Ok ()).

(** Opening [p] for writing, as [savefig] and [to_csv] do:
    [NotADirectoryError] when a regular file stands in its path,
    [IsADirectoryError] when [p] is a directory, [FileNotFoundError] when
    its directory does not exist; otherwise [p] is a regular file
    afterwards. *)
Definition write_file (p : string) (e : event) (w : world)
  : world * result unit :=
  if decide (file_in_path w p) then (w, Raise NotADirectoryError)
  else if decide (p ∈ dirs w) then (w, Raise IsADirectoryError)
  else if decide (dirname p = "" \/ dirname p = "/" \/ (dirname p ∈ dirs w))
  then (Filesystem ({[p]} ∪ paths w) (dirs w) (trace w ++ [e]), Ok ())
  else (w, Raise FileNotFoundError).

(** Lines 50-66: the loop over the terms.  An exception from
    [generate_data] or from saving a figure leaves the loop with what was
    done before it. *)
Fixpoint analyze (plot : bool) (out : string) (terms : list term)
  (all_results : list table) (w : world) : world * result (list table) :=
  match terms with
  | [] => (w, Ok all_results)
  | t :: terms' =>
      match generate_data t with
      | Raise e => (w, Raise e)
      | Ok loc =>
          let w1 := emit (Analyzed t) w in
          let saved :=
            if plot
            then let png := out ++ "_" ++ term_id t ++ ".png" in
                 write_file png (SavedFig png) w1
            else (w1, Ok ()) in
          match saved with
          | (w2, Raise e) => (w2, Raise e)
          | (w2, Ok _) => analyze plot out terms' (all_results ++ [loc]) w2
          end
      end
  end.

(** Lines 22-74 for [args.out] a path string; [terms] are the terms that
    lines 42-46 resolve. *)
Definition locality (plot : bool) (out0 : string) (terms : list term)
  (w : world) : world * result unit :=
  (* lines 24-25: sys.stdout is not a string, the test holds *)
  let out := locality_csv out0 in
  (* lines 26-27 *)
  let made :=
    if decide (dirname out <> "")
    then makedirs (dirname out) w
    else (w, Ok ()) in
  match made with
  | (w1, Raise e) => (w1, Raise e)
  | (w1, Ok _) =>
      (* lines 28-34 *)
      if decide (locality_csv out ∈ paths w1)
      then (emit (Printed (remove_csv out ++ "_Locality.csv exists! Skipping!"))
                 w1,
            Ok ())
      else
        (* lines 48-66 *)
        match analyze plot out terms [] w1 with
        | (w2, Raise e) => (w2, Raise e)
        | (w2, Ok all_results) =>
            (* line 68: pd.concat of an empty list raises *)
            match all_results with
            | [] => (w2, Raise ValueError)
            | _ => write_file out (WroteCsv out all_results) w2
            end
        end
  end.

(** The csv files the run has written, in order. *)
Definition written (w : world) : list string :=
  omap (fun e => match e with WroteCsv p _ => Some p | _ => None end) (trace w).

(** The terms the run has analyzed, in order. *)
Definition analyzed (w : world) : list term :=
  omap (fun e => match e with Analyzed t => Some t | _ => None end) (trace w).

End Run.

End Driver.

(** ** The windowed bootstrap table (lines 127-136) *)

Module Bsloc.

(** A window column that never decreases along the ranks. *)
Definition nondecreasing (col : list Z) : Prop :=
  forall i j x y,
    (i <= j)%nat -> col !! i = Some x -> col !! j = Some y -> x <= y.

(** Line 128: [bsloc.sort('fitted')], ascending. *)
Definition sort_fitted (t : list row) : list row :=
  merge_sort (fun a b => Is_true (Qle_bool (fitted a) (fitted b))) t.

(** Lines 128-136: the bootstrap table sorted by fitted value, each row with
    the window index of its rank after the merge step. *)
Definition windowed (w : Z) (bsloc : list row) : result (list (row * Z)) :=
  let sorted := sort_fitted bsloc in
  col ← Windowing.windowing w (length sorted);
  Ok (zip sorted col).

End Bsloc.

(** ** Counts behind the z-score plot (lines 267-279) *)

Module Plot.

(** [list(np.arange(1,8,0.5))]: 1, 1.5, .., 7.5. *)
Definition zscores : list Q :=
  map (fun i => (1 + inject_Z (Z.of_nat i) / 2)%Q) (seq 0 14).

(** Lines 273-279:
<<
    zloc = [
        sum(np.logical_and(
            loc['zscore'] >= x ,
            loc['local'] >= args.min_fdr_degree
        ))
        for x in zscores
    ]
>> *)
Definition zloc (min_fdr_degree : Q) (loc : list zrow) : list Z :=
  map (fun x =>
         Z.of_nat
           (length
              (filter (fun r : zrow =>
                         Is_true (ge (zscore r) (Fin x)
                                  && Qle_bool min_fdr_degree (local r)))
                      loc)))
      zscores.

End Plot.

(** ** Residual sum of squares *)

Module Fit.

(** The degrees that a regressed row was built from. *)
Definition degrees_of (r : row) : degrees :=
  Degrees (iter_name r) (local r) (global r).

(** The sum of squared residuals of the line through the origin with slope
    [b] over a table. *)
Definition rss (b : Q) (t : list degrees) : Q :=
  Regression.Qsum
    (map (fun d => ((d_local d - d_global d * b)
                    * (d_local d - d_global d * b))%Q) t).

End Fit.

(** ** Sample tables *)

Module Samples.

(** A scored empirical table: z-scores 4, 1 and -1. *)
Definition e1 : zrow := ZRow (Row Emp 6 4 2 4) (Fin 1) (Fin 4).
Definition e2 : zrow := ZRow (Row Emp 3 4 2 1) (Fin 1) (Fin 1).
Definition e3 : zrow := ZRow (Row Emp 1 4 2 (-1)) (Fin 1) (Fin (-1)).
Definition loc : list zrow := [e1; e2; e3].

(** A scored FDR table of two iterations, one row each: z-scores 2 and -2. *)
Definition f0 : zrow := ZRow (Row (Fdr 0) 3 4 2 1) (Fin (1 # 2)) (Fin 2).
Definition f1 : zrow := ZRow (Row (Fdr 1) 1 4 2 (-1)) (Fin (1 # 2)) (Fin (-2)).
Definition fdr : list zrow := [f0; f1].

(** Three bootstrap iterations of one (local, global) pair each; the third
    has a global degree above every empirical one. *)
Definition bootstrap (x : nat) : list (Q * Q) :=
  match x with
  | 0%nat => [(1, 2)]
  | 1%nat => [(3, 2)]
  | _ => [(5, 10)]
  end%Q.

(** A scored empirical table of one row with global degree 2, residual 0. *)
Definition loc1 : list zrow := [ZRow (Row Emp 2 2 2 0) (Fin 1) (Fin 0)].

(** The FDR table of that population as both modes read it, scored with a
    constant standard deviation of 1 against [loc1]: the third iteration is
    gone. *)
Definition scored1 : list zrow :=
  Eval vm_compute in
    match FDR.scored (fun _ => Fin 1) loc1 (FDR.population 3 bootstrap) with
    | Ok t => t
    | Raise _ => []
    end.

End Samples.

(** * Properties *)

(** ** Windowing *)

Section WindowingFacts.

Import Windowing.

Lemma floordiv_ok a b : b <> 0 -> floordiv a b = Ok (a / b).
Proof. intros Hb. unfold floordiv. by destruct (decide (b = 0)). Qed.

Lemma floordiv_zero a : floordiv a 0 = Raise ZeroDivisionError.
Proof. reflexivity. Qed.

Lemma comprehension_total {A B : Type} (f : A -> result B) (g : A -> B) l :
  (forall x, x ∈ l -> f x = Ok (g x)) ->
  comprehension f l = Ok (map g l).
Proof.
  induction l as [|x l IH]; intros Hf; [done|].
  cbn [comprehension map]. rewrite Hf by apply list_elem_of_here.
  cbn [Py.bind]. rewrite IH; [done|].
  intros y Hy. apply Hf. by apply list_elem_of_further.
Qed.

Lemma int_truediv_floor i t : 0 <= i -> 0 < t -> int_truediv i t = Ok (i / t).
Proof.
  intros Hi Ht. unfold int_truediv.
  destruct (decide (t = 0)); [lia|]. by rewrite Z.quot_div_nonneg.
Qed.

(** With [n = k*w + s] the tick width is [w + s/k], and what is left over
    after [k] full windows is shorter than the target size. *)
Lemma ticks_bounds w n :
  0 < w <= n ->
  let k := n / w in
  let t := n / k in
  0 < k /\ w <= t /\ k * t <= n /\ n - k * t < w.
Proof.
  intros [Hw Hn] k t.
  assert (Hk : 0 < k) by (apply Z.div_str_pos; lia).
  pose proof (Z.div_mod n w ltac:(lia)) as Hnw.
  pose proof (Z.mod_pos_bound n w Hw) as Hs.
  fold k in Hnw. set (s := n mod w) in *.
  pose proof (Z.div_mod s k ltac:(lia)) as Hsk.
  pose proof (Z.mod_pos_bound s k Hk) as Hs'.
  assert (Hq : 0 <= s / k) by (apply Z.div_pos; lia).
  assert (Ht : t = w + s / k).
  { subst t. symmetry. apply (Z.div_unique_pos n k (w + s / k) (s mod k)); lia. }
  rewrite Ht. split; [done|]. split; [lia|]. split; nia.
Qed.

Lemma range_elem n i : i ∈ range n <-> 0 <= i < Z.of_nat n.
Proof. unfold range. rewrite elem_of_seqZ. lia. Qed.

Lemma assign_windows_eq w n :
  0 < w <= Z.of_nat n ->
  assign_windows w n =
    Ok (map (fun i => i / (Z.of_nat n / (Z.of_nat n / w))) (range n)).
Proof.
  intros H. destruct (ticks_bounds _ _ H) as (Hk & Ht & _ & _).
  unfold assign_windows.
  rewrite floordiv_ok by lia. cbn [mbind result_bind Py.bind].
  rewrite floordiv_ok by lia. cbn [mbind result_bind Py.bind].
  apply comprehension_total. intros i Hi%range_elem.
  apply int_truediv_floor; lia.
Qed.

(** The window indices of a population are exactly [0 .. (n-1)/t]. *)
Lemma window_set t n :
  0 < t -> 0 < Z.of_nat n ->
  (list_to_set (map (fun i => i / t) (range n)) : gset Z)
  = list_to_set (seqZ 0 ((Z.of_nat n - 1) / t + 1)).
Proof.
  intros Ht Hn. apply set_eq. intros x.
  rewrite !elem_of_list_to_set, list_elem_of_fmap, elem_of_seqZ. split.
  - intros (i & -> & Hi%range_elem).
    assert (0 <= i / t) by (apply Z.div_pos; lia).
    assert (i / t <= (Z.of_nat n - 1) / t) by (apply Z.div_le_mono; lia).
    lia.
  - intros Hx. exists (x * t). split.
    + by rewrite Z.div_mul by lia.
    + apply range_elem.
      pose proof (Z.mul_div_le (Z.of_nat n - 1) t Ht).
      nia.
Qed.

Lemma distinct_windows_count t n :
  0 < t -> 0 < Z.of_nat n ->
  Z.of_nat (distinct_windows (map (fun i => i / t) (range n)))
  = (Z.of_nat n - 1) / t + 1.
Proof.
  intros Ht Hn. unfold distinct_windows. rewrite window_set by done.
  rewrite size_list_to_set by apply NoDup_seqZ.
  rewrite length_seqZ.
  assert (0 <= (Z.of_nat n - 1) / t) by (apply Z.div_pos; lia). lia.
Qed.

End WindowingFacts.

Section WindowingClaims.

Import Windowing.

(** C1.  A population with fewer records than one window, the empty one
    included, does not collapse to a single window: [num_windows] is 0 and
    the next line divides by it, so the windowing step raises
    [ZeroDivisionError]. *)
Theorem small_population_raises (w : Z) (n : nat) :
  Z.of_nat n < w ->
  floordiv (Z.of_nat n) w = Ok 0 /\
  assign_windows w n = Raise ZeroDivisionError /\
  windowing w n = Raise ZeroDivisionError.
Proof.
  intros Hn.
  assert (Hq : floordiv (Z.of_nat n) w = Ok 0).
  { rewrite floordiv_ok by lia. f_equal. apply Z.div_small. lia. }
  assert (Ha : assign_windows w n = Raise ZeroDivisionError).
  { unfold assign_windows. by rewrite Hq. }
  split; [done|]. split; [done|].
  unfold windowing. by rewrite Ha.
Qed.

Lemma small_population_raises_witness :
  assign_windows 5 3 = Raise ZeroDivisionError /\
  windowing 5 0 = Raise ZeroDivisionError.
Proof.
  split.
  - apply (small_population_raises 5 3). lia.
  - apply (small_population_raises 5 0). lia.
Defined.

(** C2 as stated fails: seven records with a target window size of three
    give [num_windows = 2] and [window_ticks = 3], and the last record gets
    window index 2, outside [0, num_windows - 1]; three distinct windows
    exist before merging, not [7 // 3 = 2]. *)
Lemma seven_records_three_windows :
  assign_windows 3 7 = Ok [0; 0; 0; 1; 1; 1; 2] /\
  ~ (forall x, x ∈ [0; 0; 0; 1; 1; 1; 2] -> 0 <= x <= 7 / 3 - 1) /\
  Z.of_nat (distinct_windows [0; 0; 0; 1; 1; 1; 2]) <> 7 / 3.
Proof.
  split; [reflexivity|]. split.
  - intros H.
    assert (Hin : 2 ∈ [0; 0; 0; 1; 1; 1; 2]) by repeat constructor.
    apply H in Hin. change (7 / 3 - 1) with 1 in Hin. lia.
  - by vm_compute.
Qed.

(** C2, amended.  For a population of size [n >= w > 0] the window column
    is computed without error, record [i] gets exactly the index
    [i // window_ticks], every index lies in [0, num_windows] (bound
    included), and the number of distinct windows before merging is
    [num_windows] when [window_ticks] divides [n] and [num_windows + 1]
    otherwise. *)
Theorem assign_windows_indices (w : Z) (n : nat) :
  0 < w <= Z.of_nat n ->
  let num_windows := Z.of_nat n / w in
  let window_ticks := Z.of_nat n / num_windows in
  exists col,
    assign_windows w n = Ok col /\
    length col = n /\
    (forall i, (i < n)%nat -> col !! i = Some (Z.of_nat i / window_ticks)) /\
    (forall x, x ∈ col -> 0 <= x <= num_windows) /\
    Z.of_nat (distinct_windows col)
    = if decide (Z.of_nat n mod window_ticks = 0)
      then num_windows else num_windows + 1.
Proof.
  intros H k t.
  destruct (ticks_bounds _ _ H) as (Hk & Ht & Hkt & Hr). fold k t in Hk, Ht, Hkt, Hr.
  exists (map (fun i => i / t) (range n)).
  split; [by apply assign_windows_eq|].
  split; [unfold range; rewrite length_map, length_seqZ; lia|].
  split.
  { intros i Hi. unfold range. rewrite list_lookup_fmap, lookup_seqZ_lt by lia.
    cbn. f_equal. }
  split.
  { intros x (i & -> & Hi%range_elem)%list_elem_of_fmap.
    clearbody t k. split; [apply Z.div_pos; lia|].
    enough (i / t < k + 1) by lia.
    apply Z.div_lt_upper_bound; nia. }
  rewrite distinct_windows_count by (clearbody t k; lia).
  clearbody t k.
  assert (Hmod : Z.of_nat n mod t = Z.of_nat n - k * t).
  { symmetry. apply (Z.mod_unique_pos _ _ k); lia. }
  destruct (decide (Z.of_nat n mod t = 0)) as [Hz|Hz].
  - rewrite <- (Z.div_unique_pos (Z.of_nat n - 1) t (k - 1) (t - 1)); lia.
  - rewrite <- (Z.div_unique_pos (Z.of_nat n - 1) t k (Z.of_nat n - 1 - k * t)); lia.
Qed.

Lemma assign_windows_indices_witness :
  exists col,
    assign_windows 3 7 = Ok col /\
    length col = 7%nat /\
    (forall i, (i < 7)%nat -> col !! i = Some (Z.of_nat i / 3)) /\
    (forall x, x ∈ col -> 0 <= x <= 2) /\
    Z.of_nat (distinct_windows col) = 3.
Proof. apply (assign_windows_indices 3 7). lia. Defined.

End WindowingClaims.

Section MergeFacts.

Import Windowing.

Lemma foldl_max_spec (xs : list Z) : forall x,
  foldl Z.max x xs ∈ x :: xs /\ (forall y, y ∈ x :: xs -> y <= foldl Z.max x xs).
Proof.
  induction xs as [|a xs IH]; intros x; cbn [foldl].
  - split; [apply list_elem_of_here|]. intros y Hy%list_elem_of_singleton. lia.
  - destruct (IH (Z.max x a)) as [Hin Hub]. split.
    + apply elem_of_cons in Hin as [Hin|Hin].
      * rewrite Hin. destruct (Z.max_spec x a) as [[_ ->]|[_ ->]].
        -- apply list_elem_of_further, list_elem_of_here.
        -- apply list_elem_of_here.
      * by do 2 apply list_elem_of_further.
    + intros y Hy.
      assert (Hm : Z.max x a <= foldl Z.max (Z.max x a) xs)
        by apply Hub, list_elem_of_here.
      apply elem_of_cons in Hy as [->|Hy]; [lia|].
      apply elem_of_cons in Hy as [->|Hy]; [lia|].
      by apply Hub, list_elem_of_further.
Qed.

Lemma max_spec (col : list Z) :
  col <> [] ->
  exists mx, Py.max col = Ok mx /\ mx ∈ col /\ forall y, y ∈ col -> y <= mx.
Proof.
  destruct col as [|x xs]; [done|]. intros _.
  exists (foldl Z.max x xs). split; [done|]. apply foldl_max_spec.
Qed.

Lemma lt_half_spec (c w : Z) :
  lt_half c w = true <-> (inject_Z c < inject_Z w / 2)%Q.
Proof.
  unfold lt_half. rewrite negb_true_iff.
  split.
  - intros Hb. apply Qnot_le_lt. intros Hle.
    apply Qle_bool_iff in Hle. congruence.
  - intros Hlt. destruct (Qle_bool (inject_Z w / 2) (inject_Z c)) eqn:E; [|done].
    apply Qle_bool_iff in E. exfalso. by apply (Qlt_not_le _ _ Hlt).
Qed.

(** In integers: [c < w / 2] is [2 * c < w]. *)
Lemma lt_half_int (c w : Z) : lt_half c w = true <-> 2 * c < w.
Proof.
  rewrite lt_half_spec. unfold Qlt, Qdiv, Qmult, Qinv, inject_Z. cbn. lia.
Qed.

Lemma relabel_removes (mx : Z) (col : list Z) :
  mx ∉ map (fun x => if decide (x = mx) then mx - 1 else x) col.
Proof.
  intros (x & Hx & _)%list_elem_of_fmap.
  destruct (decide (x = mx)); lia.
Qed.

End MergeFacts.

Section MergeClaims.

Import Windowing.

(** C3.  For a non-empty window column with maximum index [mx]: when the
    window [mx] holds fewer than [w/2] records the merge step succeeds,
    every record of window [mx] is moved to [mx - 1], all other records keep
    their index, and no record with index [mx] is left; when it holds at
    least [w/2] records the column is returned unchanged. *)
Theorem merge_last_spec (w : Z) (col : list Z) :
  col <> [] ->
  exists mx,
    Py.max col = Ok mx /\ mx ∈ col /\ (forall y, y ∈ col -> y <= mx) /\
    ((inject_Z (count_eq mx col) < inject_Z w / 2)%Q ->
       exists col',
         merge_last w col = Ok col' /\
         length col' = length col /\
         (forall i, col !! i = Some mx -> col' !! i = Some (mx - 1)) /\
         (forall i x, col !! i = Some x -> x <> mx -> col' !! i = Some x) /\
         mx ∉ col') /\
    (~ (inject_Z (count_eq mx col) < inject_Z w / 2)%Q ->
       merge_last w col = Ok col).
Proof.
  intros Hne. destruct (max_spec col Hne) as (mx & Hmx & Hin & Hub).
  exists mx. split; [done|]. split; [done|]. split; [done|].
  unfold merge_last. rewrite Hmx. cbn [mbind result_bind Py.bind].
  split.
  - intros Hlt%lt_half_spec. rewrite Hlt. eexists. split; [reflexivity|].
    split; [by rewrite length_map|]. split; [|split].
    + intros i Hi. rewrite list_lookup_fmap, Hi. cbn. by rewrite decide_True.
    + intros i x Hi Hx. rewrite list_lookup_fmap, Hi. cbn. by rewrite decide_False.
    + apply relabel_removes.
  - intros Hge. destruct (lt_half (count_eq mx col) w) eqn:E; [|done].
    by apply lt_half_spec in E.
Qed.

Lemma merge_last_spec_witness :
  exists mx,
    Py.max [0; 0; 0; 1; 1; 1; 2] = Ok mx /\ mx ∈ [0; 0; 0; 1; 1; 1; 2] /\
    (forall y, y ∈ [0; 0; 0; 1; 1; 1; 2] -> y <= mx) /\
    ((inject_Z (count_eq mx [0; 0; 0; 1; 1; 1; 2]%Z) < inject_Z 3 / 2)%Q ->
       exists col',
         merge_last 3 [0; 0; 0; 1; 1; 1; 2] = Ok col' /\
         length col' = length [0; 0; 0; 1; 1; 1; 2] /\
         (forall i, [0; 0; 0; 1; 1; 1; 2] !! i = Some mx ->
                    col' !! i = Some (mx - 1)) /\
         (forall i x, [0; 0; 0; 1; 1; 1; 2] !! i = Some x -> x <> mx ->
                      col' !! i = Some x) /\
         mx ∉ col') /\
    (~ (inject_Z (count_eq mx [0; 0; 0; 1; 1; 1; 2]%Z) < inject_Z 3 / 2)%Q ->
       merge_last 3 [0; 0; 0; 1; 1; 1; 2] = Ok [0; 0; 0; 1; 1; 1; 2]).
Proof. apply (merge_last_spec 3 [0; 0; 0; 1; 1; 1; 2]). discriminate. Defined.

(** The two branches of the merge on concrete columns: a last window of one
    record out of a target of three is merged, a last window of one record
    out of a target of two is kept. *)
Example merge_small_last : windowing 3 7 = Ok [0; 0; 0; 1; 1; 1; 1].
Proof. reflexivity. Qed.

Example keep_large_last : windowing 2 5 = Ok [0; 0; 1; 1; 2].
Proof. reflexivity. Qed.

End MergeClaims.

(** ** Gene-specific FDR *)

Section FDRFacts.

Import FDR.

Lemma last_hit_snoc z ts t :
  last_hit z (ts ++ [t]) = if ge z (of_int t) then Some t else last_hit z ts.
Proof. unfold last_hit. by rewrite foldl_app. Qed.

Lemma last_hit_misses z ts l :
  Forall (fun t => ge z (of_int t) = false) l ->
  last_hit z (ts ++ l) = last_hit z ts.
Proof.
  induction l as [|t l IH] using rev_ind; intros Hl.
  - by rewrite app_nil_r.
  - apply Forall_app in Hl as [Hl Ht]. rewrite Forall_singleton in Ht.
    rewrite (assoc_L (++)), last_hit_snoc, Ht. by apply IH.
Qed.

Lemma last_hit_none z ts :
  Forall (fun t => ge z (of_int t) = false) ts -> last_hit z ts = None.
Proof. intros H. exact (last_hit_misses z [] ts H). Qed.

Lemma last_hit_some z ts t :
  last_hit z ts = Some t -> t ∈ ts /\ ge z (of_int t) = true.
Proof.
  induction ts as [|a ts IH] using rev_ind; [done|].
  rewrite last_hit_snoc. destruct (ge z (of_int a)) eqn:E.
  - intros [= <-]. split; [|done]. apply elem_of_app. right. apply list_elem_of_here.
  - intros [Hin Hge]%IH. split; [|done]. apply elem_of_app. by left.
Qed.

(** In [range(0,8)] the last pass that writes is the one of the highest
    threshold the z-score reaches. *)
Lemma last_hit_range z t :
  0 <= t <= 7 ->
  ge z (of_int t) = true ->
  (forall t', t < t' <= 7 -> ge z (of_int t') = false) ->
  last_hit z (seqZ 0 8) = Some t.
Proof.
  intros Ht Hge Hmiss.
  replace 8 with ((t + 1) + (7 - t)) by lia.
  rewrite seqZ_app by lia. rewrite last_hit_misses.
  - rewrite seqZ_app by lia. rewrite (seqZ_cons _ 1) by lia.
    rewrite (seqZ_nil _ (Z.pred 1)) by lia.
    rewrite last_hit_snoc. replace (0 + t) with t by lia. by rewrite Hge.
  - apply Forall_forall. intros t' Hin%elem_of_seqZ. apply Hmiss. lia.
Qed.

Lemma filter_map_length {A B : Type} (P : A -> Prop) (Q : B -> Prop)
  `{!forall x, Decision (P x)} `{!forall y, Decision (Q y)} (f : A -> B) l :
  (forall x, Q (f x) <-> P x) ->
  length (filter Q (map f l)) = length (filter P l).
Proof.
  intros Hf. induction l as [|x l IH]; [done|].
  cbn [map]. rewrite !filter_cons.
  destruct (decide (Q (f x))) as [Hq|Hq], (decide (P x)) as [Hp|Hp];
    cbn [length]; rewrite ?IH; try done; exfalso; by apply Hf in Hq || apply Hf in Hp.
Qed.

Lemma at_least_assign {thr} t v (loc : list frow) :
  length (at_least (fun r : frow => zscore r) thr (assign_fdr t v loc))
  = length (at_least (fun r : frow => zscore r) thr loc).
Proof.
  unfold at_least, assign_fdr. apply filter_map_length.
  intros r. by destruct (ge (zscore r) (of_int t)).
Qed.

Lemma num_real_pass fdr loc t thr :
  num_real (threshold_pass fdr loc t) thr = num_real loc thr.
Proof. unfold num_real, threshold_pass. by rewrite at_least_assign. Qed.

Lemma num_real_init (loc : list zrow) thr :
  num_real (map (fun r => FRow r None) loc) thr
  = Z.of_nat (length (at_least zscore thr loc)).
Proof.
  unfold num_real, at_least. f_equal. by apply filter_map_length.
Qed.

Lemma settle_f_row fdr loc ts r : f_row (settle fdr loc ts r) = f_row r.
Proof. unfold settle. by destruct (last_hit (zscore r) ts). Qed.

Lemma loop_settles fdr ts : forall loc,
  foldl (threshold_pass fdr) loc ts = map (settle fdr loc ts) loc.
Proof.
  induction ts as [|t ts IH] using rev_ind; intros loc.
  - cbn. symmetry. apply map_id.
  - rewrite foldl_app. cbn [foldl]. rewrite IH.
    unfold threshold_pass at 1. unfold assign_fdr. rewrite map_map.
    assert (Hn : num_real (map (settle fdr loc ts) loc) t = num_real loc t).
    { rewrite <- IH. clear IH. revert loc.
      induction ts as [|a ts IH'] using rev_ind; intros loc; [done|].
      rewrite foldl_app. cbn [foldl]. by rewrite num_real_pass. }
    rewrite Hn. apply map_ext. intros r. cbn beta.
    rewrite !settle_f_row. unfold settle at 2. rewrite last_hit_snoc.
    by destruct (ge (zscore r) (of_int t)).
Qed.

Lemma gene_specific_row (loc fdr : list zrow) (i : nat) (r : zrow) :
  loc !! i = Some r ->
  gene_specific_fdr loc fdr !! i
  = Some match last_hit (zscore r) (seqZ 0 8) with
         | Some t =>
             FRow r (Some (zfdr (Z.of_nat (length (at_least zscore t loc)))
                                (num_random fdr t)))
         | None => FRow r None
         end.
Proof.
  intros Hi. unfold gene_specific_fdr. rewrite loop_settles.
  rewrite !list_lookup_fmap, Hi. cbn [fmap option_fmap option_map].
  f_equal. unfold settle. cbn [f_row zscore].
  destruct (last_hit (zscore r) (seqZ 0 8)); [|done].
  by rewrite num_real_init.
Qed.

(** A z-score below zero reaches no threshold of [range(0,8)]. *)
Lemma negative_misses z t : lt z (of_int 0) = true -> 0 <= t -> ge z (of_int t) = false.
Proof.
  intros Hlt Ht. destruct z as [q| | |]; try done. cbn in *.
  apply negb_true_iff in Hlt.
  destruct (Qle_bool (inject_Z t) q) eqn:E; [|done].
  apply Qle_bool_iff in E.
  assert (H0 : (inject_Z 0 <= q)%Q).
  { eapply Qle_trans; [|exact E]. rewrite <- Zle_Qle. done. }
  apply Qle_bool_iff in H0. congruence.
Qed.

End FDRFacts.

Section FDRClaims.

Import FDR.

Lemma zfdr_cases (n_real : Z) (n_random : Q) :
  (n_real = 0 \/ (n_random == 0)%Q -> zfdr n_real n_random = 1%Q) /\
  (n_real <> 0 -> ~ (n_random == 0)%Q ->
   zfdr n_real n_random = (n_random / inject_Z n_real)%Q).
Proof.
  unfold zfdr. split.
  - intros [->|Hz]; [done|].
    apply Qeq_bool_iff in Hz. rewrite Hz. by rewrite andb_false_r.
  - intros Hn Hr. apply Z.eqb_neq in Hn. rewrite Hn.
    destruct (Qeq_bool n_random 0) eqn:E; [|done].
    by apply Qeq_bool_iff in E.
Qed.

(** One pass writes its value into the rows at or above its threshold and
    leaves the other rows as they are. *)
Lemma threshold_pass_row (fdr : list zrow) (loc : list frow) t i (r : frow) :
  loc !! i = Some r ->
  threshold_pass fdr loc t !! i
  = Some (if ge (zscore r) (of_int t)
          then FRow r (Some (zfdr (num_real loc t) (num_random fdr t)))
          else r).
Proof.
  intros Hi. unfold threshold_pass, assign_fdr.
  by rewrite list_lookup_fmap, Hi.
Qed.

End FDRClaims.

Section FDRWitnesses.

Import FDR.

(** The sample run: the record with z-score 4 ends with the value of
    threshold 4, the one with z-score 1 with the value of threshold 1, and
    the one with z-score -1 with no value. *)
Example sample_fdr_column :
  map fdr (gene_specific_fdr Samples.loc Samples.fdr)
  = [Some 1%Q; Some (1 # 2)%Q; None].
Proof. reflexivity. Qed.

End FDRWitnesses.

Section UnsetFDR.

Import FDR.

Lemma last_hit_is_some z ts t :
  t ∈ ts -> ge z (of_int t) = true -> is_Some (last_hit z ts).
Proof.
  induction ts as [|a ts IH] using rev_ind; intros Hin Hge.
  - by apply not_elem_of_nil in Hin.
  - rewrite last_hit_snoc. destruct (ge z (of_int a)) eqn:E; [by eexists|].
    apply IH; [|done].
    apply elem_of_app in Hin as [Hin|Hin%list_elem_of_singleton]; [done|].
    congruence.
Qed.

(** C10.  An empirical record whose z-score is below 0 is written by no
    threshold pass and keeps an empty [fdr] cell in the returned table; a
    record whose z-score is at least 0 always ends with a value. *)
Theorem negative_zscore_keeps_fdr_unset
  (loc fdr : list zrow) (i : nat) (r : zrow) :
  loc !! i = Some r ->
  (lt (zscore r) (of_int 0) = true ->
   (forall t, 0 <= t <= 7 -> ge (zscore r) (of_int t) = false) /\
   gene_specific_fdr loc fdr !! i = Some (FRow r None)) /\
  (ge (zscore r) (of_int 0) = true ->
   exists v, gene_specific_fdr loc fdr !! i = Some (FRow r (Some v))).
Proof.
  intros Hi. rewrite (gene_specific_row _ _ _ _ Hi). split.
  - intros Hlt.
    assert (Hmiss : forall t, 0 <= t <= 7 -> ge (zscore r) (of_int t) = false).
    { intros t Ht. apply negative_misses; [done|lia]. }
    split; [done|]. rewrite last_hit_none; [done|].
    apply Forall_forall. intros t Ht%elem_of_seqZ. apply Hmiss. lia.
  - intros Hge.
    destruct (last_hit_is_some (zscore r) (seqZ 0 8) 0) as [t Ht];
      [by apply elem_of_seqZ|done|].
    rewrite Ht. by eexists.
Qed.

Lemma negative_zscore_keeps_fdr_unset_witness :
  gene_specific_fdr Samples.loc Samples.fdr !! 2%nat
  = Some (FRow Samples.e3 None) /\
  exists v, gene_specific_fdr Samples.loc Samples.fdr !! 0%nat
            = Some (FRow Samples.e1 (Some v)).
Proof.
  split.
  - apply (negative_zscore_keeps_fdr_unset
             Samples.loc Samples.fdr 2 Samples.e3); reflexivity.
  - apply (negative_zscore_keeps_fdr_unset
             Samples.loc Samples.fdr 0 Samples.e1); reflexivity.
Defined.

End UnsetFDR.

(** ** The bootstrap count of the gene-specific mode *)

Section NumRandom.

Import FDR.

Lemma filter_none {A : Type} (P : A -> Prop) `{!forall x, Decision (P x)}
  (l : list A) :
  (forall x, x ∈ l -> ~ P x) -> filter P l = [].
Proof.
  induction l as [|x l IH]; intros Hl; [done|].
  rewrite filter_cons, decide_False by (apply Hl, list_elem_of_here).
  apply IH. intros y Hy. by apply Hl, list_elem_of_further.
Qed.

Lemma filter_all {A : Type} (P : A -> Prop) `{!forall x, Decision (P x)}
  (l : list A) :
  (forall x, x ∈ l -> P x) -> filter P l = l.
Proof.
  induction l as [|x l IH]; intros Hl; [done|].
  rewrite filter_cons, decide_True by (apply Hl, list_elem_of_here).
  f_equal. apply IH. intros y Hy. by apply Hl, list_elem_of_further.
Qed.

(** The groups of a set of distinct labels partition the rows that carry
    one of them. *)
Lemma group_sizes (t : list zrow) (ks : list label) :
  NoDup ks ->
  foldr Z.add 0
        (map (fun k => Z.of_nat (length (filter (fun r : zrow => iter_name r = k) t))) ks)
  = Z.of_nat (length (filter (fun r : zrow => iter_name r ∈ ks) t)).
Proof.
  induction 1 as [|k ks Hk Hks IH]; cbn [map foldr].
  - rewrite filter_none; [done|]. intros r _. apply not_elem_of_nil.
  - rewrite IH. clear IH.
    induction t as [|r t IHt]; [done|].
    rewrite !filter_cons.
    destruct (decide (iter_name r = k)) as [Hr|Hr].
    + rewrite decide_False by (rewrite Hr; done).
      rewrite decide_True by (rewrite Hr; apply list_elem_of_here).
      cbn [length]. lia.
    + destruct (decide (iter_name r ∈ ks)) as [Hin|Hin].
      * rewrite decide_True by (by apply list_elem_of_further).
        cbn [length]. lia.
      * rewrite decide_False; [done|].
        intros [?|?]%elem_of_cons; done.
Qed.

Lemma groupby_sizes_sum (t : list zrow) :
  foldr Z.add 0 (map (fun g => Z.of_nat (length g.2)) (groupby_iter_name t))
  = Z.of_nat (length t).
Proof.
  unfold groupby_iter_name. rewrite map_map. cbn [snd].
  rewrite group_sizes by apply NoDup_remove_dups.
  rewrite filter_all; [done|].
  intros r Hr. apply elem_of_remove_dups.
  apply list_elem_of_fmap. by exists r.
Qed.

Lemma groupby_length (t : list zrow) :
  length (groupby_iter_name t)
  = length (remove_dups (map (fun r : zrow => iter_name r) t)).
Proof. unfold groupby_iter_name. by rewrite length_map. Qed.

(** What [num_random] computes: the number of rows at or above the
    threshold, divided by the number of iterations that have such a row. *)
Lemma num_random_mean_over_hit_iterations (fdr : list zrow) (t : Z) :
  let hits := at_least zscore t fdr in
  hits <> [] ->
  num_random fdr t
  = (inject_Z (Z.of_nat (length hits))
     / inject_Z (Z.of_nat (length (remove_dups (map (fun r : zrow => iter_name r) hits)))))%Q.
Proof.
  intros hits Hne. unfold num_random. fold hits.
  rewrite decide_True by (destruct hits; [done|cbn; lia]).
  unfold mean_int. by rewrite groupby_sizes_sum, length_map, groupby_length.
Qed.

(** C4.  On the sample FDR table (two iterations; one row with z-score 2,
    one with z-score -2) and threshold 1, [num_random] is 1: the iteration
    without a row at or above the threshold is left out of the mean.  The
    mean over both iterations, which counts that iteration as 0, is 1/2, and
    the per-iteration counts that [plot_fdr] takes from the same table are
    1 and 0. *)
Theorem num_random_leaves_out_empty_iterations :
  (num_random Samples.fdr 1 == 1)%Q /\
  (num_random_all_iterations 2 Samples.fdr 1 == 1 # 2)%Q /\
  plot_fdr_counts 0 Samples.fdr 1 = [1; 0] /\
  map (fun g => (g.1, length g.2))
      (groupby_iter_name (at_least zscore 1 Samples.fdr)) = [(Fdr 0, 1%nat)].
Proof. repeat split; reflexivity. Qed.

End NumRandom.

(** ** Aggregate mode *)

Section AggregateFacts.

Import FDR.

Lemma comprehension_ok {A B : Type} (f : A -> result B) (l : list A) ys :
  comprehension f l = Ok ys -> Forall2 (fun x y => f x = Ok y) l ys.
Proof.
  revert ys. induction l as [|x l IH]; intros ys; cbn [comprehension].
  - intros [= <-]. constructor.
  - destruct (f x) as [y|e] eqn:Hx; cbn [Py.bind]; [|done].
    destruct (comprehension f l) as [ys'|e] eqn:Hl; cbn [Py.bind]; [|done].
    intros [= <-]. constructor; [done|]. by apply IH.
Qed.

Lemma with_zscore_rows fit_std (t : list row) (zt : list zrow) :
  ZScore.with_zscore fit_std t = Ok zt ->
  Forall2 (fun r z => z_row z = r /\ bs_std z = fit_std (fitted r) /\
                      truediv (Fin (resid r)) (bs_std z) = Ok (zscore z))
          t zt.
Proof.
  intros H%comprehension_ok. eapply Forall2_impl; [exact H|].
  intros r z. unfold ZScore.zscore_of. cbn.
  destruct (truediv (Fin (resid r)) (fit_std (fitted r))) as [q|e] eqn:E;
    cbn; [|done].
  intros [= <-]. by cbn.
Qed.

Lemma population_labels nb bootstrap (r : row) :
  r ∈ population nb bootstrap -> exists x, (x < nb)%nat /\ iter_name r = Fdr x.
Proof.
  unfold population, Regression.with_regression.
  intros (d & -> & Hd)%list_elem_of_fmap. cbn [iter_name].
  unfold sort_global in Hd. rewrite merge_sort_Permutation in Hd.
  apply list_elem_of_In, in_concat in Hd as (ds & Hds & Hd).
  apply list_elem_of_In in Hds, Hd.
  apply list_elem_of_fmap in Hds as (x & -> & Hx).
  apply list_elem_of_fmap in Hd as (p & -> & _). cbn.
  exists x. split; [|done]. apply elem_of_seq in Hx. lia.
Qed.

Lemma scored_labels fit_std nb bootstrap loc (fdr : list zrow) (r : zrow) :
  scored fit_std loc (population nb bootstrap) = Ok fdr ->
  r ∈ fdr -> exists x, (x < nb)%nat /\ iter_name r = Fdr x.
Proof.
  unfold scored, restrict_global.
  destruct (max_global _) as [top|e]; cbn; [|done].
  intros Hz%with_zscore_rows Hr.
  apply list_elem_of_lookup in Hr as [i Hi].
  destruct (Forall2_lookup_r _ _ _ _ _ Hz Hi) as (r0 & Hr0 & Heq & _).
  rewrite Heq. apply (population_labels nb bootstrap).
  apply list_elem_of_lookup_2 in Hr0.
  by apply list_elem_of_filter in Hr0 as [_ ?].
Qed.

Lemma ratio_bounds (k m : nat) :
  (k <= m)%nat -> (0 < m)%nat ->
  (0 <= inject_Z (Z.of_nat k) / inject_Z (Z.of_nat m)
   /\ inject_Z (Z.of_nat k) / inject_Z (Z.of_nat m) <= 1)%Q.
Proof.
  intros Hk Hm.
  assert (Hpos : (0 < inject_Z (Z.of_nat m))%Q).
  { change 0%Q with (inject_Z 0). rewrite <- Zlt_Qlt. lia. }
  split.
  - apply Qle_shift_div_l; [done|]. rewrite Qmult_0_l.
    change 0%Q with (inject_Z 0). rewrite <- Zle_Qle. lia.
  - apply Qle_shift_div_r; [done|]. rewrite Qmult_1_l.
    rewrite <- Zle_Qle. lia.
Qed.

Lemma remove_dups_nonempty {A : Type} `{!EqDecision A} (l : list A) :
  l <> [] -> (0 < length (remove_dups l))%nat.
Proof.
  destruct l as [|x l]; [done|]. intros _.
  assert (Hx : x ∈ remove_dups (x :: l))
    by apply elem_of_remove_dups, list_elem_of_here.
  destruct (remove_dups (x :: l)); [by apply not_elem_of_nil in Hx|cbn; lia].
Qed.

(** The p-value of a non-empty pair of tables: hits over groups. *)
Lemma aggregate_pval_eq (loc fdr : list zrow) :
  loc <> [] -> fdr <> [] ->
  let means := map (fun g => mean (map (fun r : zrow => resid r) g.2))
                   (groupby_iter_name fdr) in
  let k := length (filter (fun x => Is_true (Qle_bool
                     (mean (map (fun r : zrow => resid r) loc)) x)) means) in
  let m := length (remove_dups (map (fun r : zrow => iter_name r) fdr)) in
  aggregate_pval loc fdr
  = Ok (inject_Z (Z.of_nat k) / inject_Z (Z.of_nat m))%Q
  /\ (k <= m)%nat /\ (0 < m)%nat.
Proof.
  intros Hloc Hfdr means k m.
  assert (Hm : length means = m)
    by (unfold means; by rewrite length_map, groupby_length).
  assert (Hpos : (0 < m)%nat)
    by (apply remove_dups_nonempty; by destruct fdr).
  split; [|split; [|done]].
  - unfold aggregate_pval. destruct loc as [|r0 loc]; [done|].
    cbn [mbind result_bind Py.bind]. fold means. fold k.
    rewrite Hm. by rewrite decide_False by lia.
  - rewrite <- Hm. apply length_filter.
Qed.

End AggregateFacts.

(** ** The stored FDR value *)

Section StoredFDR.

Import FDR.

(** The bootstrap count of a pass with a row at or above its threshold is
    not zero. *)
Lemma num_random_hits (fdr : list zrow) (t : Z) :
  let hits := at_least zscore t fdr in
  hits <> [] ->
  num_random fdr t
  = (inject_Z (Z.of_nat (length hits))
     / inject_Z (Z.of_nat (length (remove_dups (map (fun r : zrow => iter_name r) hits)))))%Q
  /\ ~ (num_random fdr t == 0)%Q.
Proof.
  intros hits Hne.
  rewrite (num_random_mean_over_hit_iterations fdr t Hne). fold hits.
  split; [done|].
  set (ks := remove_dups (map (fun r : zrow => iter_name r) hits)).
  assert (Hks : (0 < length ks)%nat)
    by (apply remove_dups_nonempty; by destruct hits).
  assert (Hh : (0 < length hits)%nat) by (destruct hits; [done|cbn; lia]).
  intros Hq.
  assert (Hpos : (0 < inject_Z (Z.of_nat (length hits))
                      / inject_Z (Z.of_nat (length ks)))%Q).
  { apply Qlt_shift_div_l.
    - change 0%Q with (inject_Z 0). rewrite <- Zlt_Qlt. lia.
    - rewrite Qmult_0_l. change 0%Q with (inject_Z 0). rewrite <- Zlt_Qlt. lia. }
  rewrite Hq in Hpos. by apply Qlt_irrefl in Hpos.
Qed.

(** C5.  After the passes for thresholds 0..7 the [fdr] cell of an empirical
    record holds the value of the highest threshold [t] that its z-score
    reaches, and [num_real] is not zero there.  That value is 1 when no
    FDR-bootstrap row reaches [t]; otherwise it is (rows at or above [t] /
    iterations that have such a row) / [num_real]: the count divided is the
    mean over the iterations with a hit, not over all iterations.  On the
    sample tables the record with z-score 1 ends with 1/2, where the mean
    over both iterations, 1/2, gives 1/4. *)
Theorem stored_fdr_uses_hit_iterations_only :
  (forall (loc fdr : list zrow) (i : nat) (r : zrow) (t : Z),
     loc !! i = Some r ->
     0 <= t <= 7 ->
     ge (zscore r) (of_int t) = true ->
     (forall t', t < t' <= 7 -> ge (zscore r) (of_int t') = false) ->
     let hits := at_least zscore t fdr in
     let iterations := remove_dups (map (fun r : zrow => iter_name r) hits) in
     let n_real := Z.of_nat (length (at_least zscore t loc)) in
     n_real <> 0 /\
     gene_specific_fdr loc fdr !! i
     = Some (FRow r (Some match hits with
                          | [] => 1%Q
                          | _ => (inject_Z (Z.of_nat (length hits))
                                  / inject_Z (Z.of_nat (length iterations))
                                  / inject_Z n_real)%Q
                          end))) /\
  gene_specific_fdr Samples.loc Samples.fdr !! 1%nat
  = Some (FRow Samples.e2 (Some (1 # 2)%Q)) /\
  ge (zscore Samples.e2) (of_int 1) = true /\
  (forall t', 1 < t' <= 7 -> ge (zscore Samples.e2) (of_int t') = false) /\
  Z.of_nat (length (at_least zscore 1 Samples.loc)) = 2 /\
  length (at_least zscore 1 Samples.fdr) = 1%nat /\
  (num_random_all_iterations 2 Samples.fdr 1 == 1 # 2)%Q /\
  (zfdr 2 (num_random_all_iterations 2 Samples.fdr 1) == 1 # 4)%Q /\
  ~ (1 # 2 == 1 # 4)%Q.
Proof.
  split.
  { intros loc fdr i r t Hi Ht Hge Hmiss hits iterations n_real.
    assert (Hn : n_real <> 0).
    { assert (Hin : r ∈ at_least zscore t loc).
      { apply list_elem_of_filter. split; [by rewrite Hge|].
        by apply (list_elem_of_lookup_2 _ i). }
      unfold n_real. destruct (at_least zscore t loc);
        [by apply not_elem_of_nil in Hin|cbn; lia]. }
    split; [done|].
    rewrite (gene_specific_row _ _ _ _ Hi), (last_hit_range _ _ Ht Hge Hmiss).
    fold n_real. do 3 f_equal.
    destruct hits as [|h hits'] eqn:E.
    - apply zfdr_cases. right. unfold num_random. fold hits. by rewrite E.
    - assert (Hne : at_least zscore t fdr <> []) by (fold hits; by rewrite E).
      destruct (num_random_hits fdr t Hne) as [Heq Hnz].
      rewrite (proj2 (zfdr_cases n_real _) Hn Hnz), Heq.
      unfold iterations. fold hits. by rewrite E. }
  split; [reflexivity|]. split; [reflexivity|]. split.
  { intros t' Ht'. cbn. unfold Qle_bool. cbn. apply Z.leb_gt. lia. }
  repeat split; try reflexivity. by vm_compute.
Qed.

End StoredFDR.

Section AggregateClaims.

Import FDR.

(** C6 as stated fails: with [num_bootstraps = 3] and a third iteration
    whose only record has a global degree above every empirical one, two
    iterations are left, one of them with a mean residual at or above the
    empirical one, and the p-value is 1/2, which is [k/3] for no integer
    [k]. *)
Lemma pval_half_of_three_bootstraps :
  estimate (fun _ => Fin 1) false Samples.loc1
           (population 3 Samples.bootstrap)
  = Ok (inr (1 # 2)%Q) /\
  forall k : Z, ~ (1 # 2 == inject_Z k / inject_Z 3)%Q.
Proof.
  split; [reflexivity|].
  intros k. unfold Qeq, Qdiv, Qmult, Qinv, inject_Z. cbn. lia.
Qed.

(** C6, amended.  In aggregate mode the p-value is the number of
    FDR-bootstrap iterations whose mean residual is at or above the
    empirical mean residual, counted among the [m] iterations that still
    have a record after the global-degree filter, and divided by [m].  It
    lies in [0, 1] and is [k/m] with [0 <= k <= m] and
    [1 <= m <= num_bootstraps]; [m] is [num_bootstraps] when every
    iteration keeps a record. *)
Theorem aggregate_pval_over_retained_iterations
  (fit_std : Q -> fl)
  (num_bootstraps : nat) (bootstrap : nat -> list (Q * Q))
  (loc fdr : list zrow) :
  loc <> [] ->
  scored fit_std loc (population num_bootstraps bootstrap) = Ok fdr ->
  fdr <> [] ->
  let retained := remove_dups (map (fun r : zrow => iter_name r) fdr) in
  let m := length retained in
  let means := map (fun g => mean (map (fun r : zrow => resid r) g.2))
                   (groupby_iter_name fdr) in
  let k := length (filter (fun x => Is_true (Qle_bool
                     (mean (map (fun r : zrow => resid r) loc)) x)) means) in
  let p := (inject_Z (Z.of_nat k) / inject_Z (Z.of_nat m))%Q in
  estimate fit_std false loc (population num_bootstraps bootstrap)
  = Ok (inr p) /\
  (k <= m)%nat /\ (0 < m <= num_bootstraps)%nat /\
  (0 <= p /\ p <= 1)%Q /\
  (forall x, Fdr x ∈ retained <-> exists r : zrow, r ∈ fdr /\ iter_name r = Fdr x) /\
  ((forall x, (x < num_bootstraps)%nat ->
              exists r : zrow, r ∈ fdr /\ iter_name r = Fdr x) ->
   m = num_bootstraps).
Proof.
  intros Hloc Hsc Hfdr retained m means k p.
  destruct (aggregate_pval_eq loc fdr Hloc Hfdr) as (Hp & Hk & Hm).
  fold means k retained m p in Hp, Hk, Hm.
  assert (Hret : forall x, Fdr x ∈ retained
                           <-> exists r : zrow, r ∈ fdr /\ iter_name r = Fdr x).
  { intros x. unfold retained. rewrite elem_of_remove_dups, list_elem_of_fmap.
    split; intros (r & ? & ?); by exists r. }
  assert (Hsub : forall l, l ∈ retained -> l ∈ Fdr <$> seq 0 num_bootstraps).
  { intros l. unfold retained. rewrite elem_of_remove_dups.
    intros (r & -> & Hr)%list_elem_of_fmap.
    destruct (scored_labels _ _ _ _ _ _ Hsc Hr) as (x & Hx & ->).
    apply list_elem_of_fmap. exists x. split; [done|]. apply elem_of_seq. lia. }
  assert (Hlen : length (Fdr <$> seq 0 num_bootstraps) = num_bootstraps)
    by (by rewrite length_fmap, length_seq).
  assert (Hle : (m <= num_bootstraps)%nat).
  { unfold m. rewrite <- Hlen.
    apply submseteq_length, NoDup_submseteq; [apply NoDup_remove_dups|done]. }
  split; [unfold estimate; rewrite Hsc; cbn; by rewrite Hp|].
  split; [done|]. split; [lia|].
  split; [by apply ratio_bounds|]. split; [done|].
  intros Hall. apply Nat.le_antisymm; [done|].
  unfold m. rewrite <- Hlen.
  apply submseteq_length, NoDup_submseteq.
  - apply (NoDup_fmap_2 Fdr), NoDup_seq.
  - intros l (x & -> & Hx%elem_of_seq)%list_elem_of_fmap.
    apply Hret, Hall. lia.
Qed.

Lemma aggregate_pval_over_retained_iterations_witness :
  exists p,
    estimate (fun _ => Fin 1) false Samples.loc1
             (population 3 Samples.bootstrap) = Ok (inr p) /\
    (0 <= p /\ p <= 1)%Q /\
    (length (remove_dups (map (fun r : zrow => iter_name r) Samples.scored1))
     <= 3)%nat.
Proof.
  destruct (aggregate_pval_over_retained_iterations
              (fun _ => Fin 1) 3 Samples.bootstrap
              Samples.loc1 Samples.scored1)
    as (He & _ & Hm & Hp & _).
  - discriminate.
  - reflexivity.
  - discriminate.
  - eexists. split; [exact He|]. split; [exact Hp|]. apply Hm.
Defined.

End AggregateClaims.

(** ** Z-scores *)

Section ZScoreClaims.

Import FDR ZScore.

Lemma truediv_total x sd :
  is_zero sd = false -> exists z, truediv x sd = Ok z.
Proof.
  intros Hk. unfold truediv. destruct sd as [b| | |]; try by eexists.
  cbn in Hk. rewrite Hk. by eexists.
Qed.

Lemma truediv_nan x : truediv x NaN = Ok NaN.
Proof. reflexivity. Qed.

Lemma truediv_zero x sd :
  is_zero sd = true -> truediv x sd = Raise ZeroDivisionError.
Proof.
  destruct sd as [b| | |]; try done. cbn. intros Hb. unfold truediv.
  by rewrite Hb.
Qed.

Lemma truediv_raises x sd e :
  truediv x sd = Raise e -> e = ZeroDivisionError.
Proof.
  unfold truediv. destruct sd as [b| | |]; try done.
  destruct (Qeq_bool b 0); [|done]. by intros [= <-].
Qed.

(** A zero estimate anywhere in the table stops the comprehension. *)
Lemma with_zscore_zero (fit_std : Q -> fl) (t : list row) :
  (exists r, r ∈ t /\ is_zero (fit_std (fitted r)) = true) ->
  with_zscore fit_std t = Raise ZeroDivisionError.
Proof.
  intros (r & Hr & Hz). unfold with_zscore.
  induction t as [|r0 t IH]; [by apply not_elem_of_nil in Hr|].
  cbn [comprehension]. unfold zscore_of at 1.
  cbn [mbind result_bind Py.bind].
  destruct (truediv (Fin (resid r0)) (fit_std (fitted r0)))
    as [z|e] eqn:E; cbn [Py.bind].
  - apply elem_of_cons in Hr as [->|Hr].
    + rewrite truediv_zero in E by done. done.
    + by rewrite (IH Hr).
  - by rewrite (truediv_raises _ _ _ E).
Qed.

(** C7 as stated fails.  A standardizer that returns NaN gives a table with
    a NaN z-score and no error, and the FDR loop runs on it: the record is
    counted at no threshold and ends without an FDR value.  In the FDR table
    a record with a NaN z-score is likewise counted at no threshold. *)
Lemma nan_estimate_passes_unflagged :
  with_zscore (fun _ => NaN) [Row Emp 3 4 2 1]
  = Ok [ZRow (Row Emp 3 4 2 1) NaN NaN] /\
  gene_specific_fdr [ZRow (Row Emp 3 4 2 1) NaN NaN] Samples.fdr
  = [FRow (ZRow (Row Emp 3 4 2 1) NaN NaN) None] /\
  with_zscore (fun _ => NaN) [Row (Fdr 0) 3 4 2 1]
  = Ok [ZRow (Row (Fdr 0) 3 4 2 1) NaN NaN] /\
  map (num_random [ZRow (Row (Fdr 0) 3 4 2 1) NaN NaN]) (seqZ 0 8)
  = [0; 0; 0; 0; 0; 0; 0; 0]%Q.
Proof. repeat split; reflexivity. Qed.

(** C7, amended.  A zero standard deviation estimate is not divided by
    silently: the division raises [ZeroDivisionError], the z-score step
    returns no z-score at all and nothing reaches the FDR counts.  A NaN
    estimate is not detected: when no estimate is zero the step returns the
    whole table, each z-score being whatever the division yields, and a
    record with a NaN estimate carries a NaN z-score, which no threshold
    counts. *)
Theorem zscore_division_unchecked (fit_std : Q -> fl) (t : list row) :
  ((exists r, r ∈ t /\ is_zero (fit_std (fitted r)) = true) ->
   with_zscore fit_std t = Raise ZeroDivisionError) /\
  ((forall r, r ∈ t -> is_zero (fit_std (fitted r)) = false) ->
   exists zt,
     with_zscore fit_std t = Ok zt /\
     length zt = length t /\
     forall i r, t !! i = Some r ->
       exists z,
         zt !! i = Some (ZRow r (fit_std (fitted r)) z) /\
         truediv (Fin (resid r)) (fit_std (fitted r)) = Ok z /\
         (fit_std (fitted r) = NaN ->
          z = NaN /\ forall thr, ge z (of_int thr) = false)).
Proof.
  split; [apply with_zscore_zero|].
  intros Hk.
  assert (Hz : exists zt, with_zscore fit_std t = Ok zt).
  { unfold with_zscore. induction t as [|r t IH]; [by eexists|].
    cbn [comprehension].
    destruct (truediv_total (Fin (resid r)) (fit_std (fitted r))) as [z Hz].
    { apply Hk, list_elem_of_here. }
    destruct IH as [zt Hzt].
    { intros r' Hr'. by apply Hk, list_elem_of_further. }
    unfold zscore_of at 1. cbn. rewrite Hz. cbn. rewrite Hzt. cbn. by eexists. }
  destruct Hz as [zt Hzt]. exists zt. split; [done|].
  pose proof (with_zscore_rows _ _ _ Hzt) as Hrows.
  split; [symmetry; by eapply Forall2_length|].
  intros i r Hi.
  destruct (Forall2_lookup_l _ _ _ _ _ Hrows Hi) as (z & Hzi & Hrow & Hsd & Hdiv).
  destruct z as [r' sd z]. cbn in Hrow, Hsd, Hdiv. subst r' sd.
  exists z. split; [done|]. split; [done|].
  intros Hnan. rewrite Hnan, truediv_nan in Hdiv.
  injection Hdiv as <-. split; [done|]. by intros thr.
Qed.

Lemma zscore_division_unchecked_witness :
  with_zscore (fun f => if Qeq_bool f 2 then Fin 0 else Fin 1)
              [Row Emp 1 2 1 0; Row Emp 3 4 2 1]
  = Raise ZeroDivisionError /\
  exists zt,
    with_zscore (fun _ => NaN) [Row Emp 3 4 2 1] = Ok zt /\
    length zt = 1%nat /\
    forall i r, [Row Emp 3 4 2 1] !! i = Some r ->
      exists z,
        zt !! i = Some (ZRow r NaN z) /\
        truediv (Fin (resid r)) NaN = Ok z /\
        (NaN = NaN -> z = NaN /\ forall thr, ge z (of_int thr) = false).
Proof.
  split.
  - apply (zscore_division_unchecked
             (fun f => if Qeq_bool f 2 then Fin 0 else Fin 1)
             [Row Emp 1 2 1 0; Row Emp 3 4 2 1]).
    exists (Row Emp 3 4 2 1). split; [repeat constructor|reflexivity].
  - apply (zscore_division_unchecked (fun _ => NaN) [Row Emp 3 4 2 1]).
    intros r _. reflexivity.
Defined.

(** A zero estimate for the first record: no row is returned, the second
    record included. *)
Example zero_estimate_python_float :
  with_zscore (fun _ => Fin 0) [Row Emp 3 4 2 1; Row Emp 1 4 2 (-1)]
  = Raise ZeroDivisionError.
Proof. reflexivity. Qed.

End ZScoreClaims.

(** ** Regression *)

Section RegressionFacts.

Import Regression.

Lemma zip_with_columns {A : Type} (f g : A -> Q) (op : Q -> Q -> Q) (t : list A) :
  zip_with op (map f t) (map g t) = map (fun d => op (f d) (g d)) t.
Proof. induction t as [|d t IH]; [done|]. cbn. by rewrite IH. Qed.

Lemma Qsum_cons x l : Qsum (x :: l) = (x + Qsum l)%Q.
Proof. reflexivity. Qed.

Lemma square_nonneg (x : Q) : (0 <= x * x)%Q.
Proof. unfold Qle, Qmult. cbn. nia. Qed.

Lemma square_zero (x : Q) : (x * x == 0)%Q -> (x == 0)%Q.
Proof. unfold Qeq, Qmult. cbn. nia. Qed.

Lemma Qsum_squares_nonneg {A : Type} (g : A -> Q) (t : list A) :
  (0 <= Qsum (map (fun d => g d * g d) t))%Q.
Proof.
  induction t as [|d t IH]; [done|]. cbn [map]. rewrite Qsum_cons.
  rewrite <- (Qplus_0_l 0). apply Qplus_le_compat; [apply square_nonneg|done].
Qed.

(** A zero sum of squares has only zero terms, so every cross product
    vanishes with it. *)
Lemma Qsum_squares_zero {A : Type} (g l : A -> Q) (t : list A) :
  (Qsum (map (fun d => g d * g d) t) == 0)%Q ->
  (Qsum (map (fun d => g d * l d) t) == 0)%Q.
Proof.
  induction t as [|d t IH]; [done|]. cbn [map]. rewrite !Qsum_cons.
  intros Hs.
  pose proof (square_nonneg (g d)) as H1.
  pose proof (Qsum_squares_nonneg g t) as H2.
  assert (Ht : (Qsum (map (fun d => g d * g d) t) == 0)%Q).
  { apply Qle_antisym; [|done]. rewrite <- Hs.
    rewrite <- (Qplus_0_l (Qsum _)) at 1. by apply Qplus_le_compat; [|apply Qle_refl]. }
  assert (Hd : (g d == 0)%Q).
  { apply square_zero. rewrite Ht, Qplus_0_r in Hs. done. }
  rewrite (IH Ht), Hd. ring.
Qed.

(** Linearity of the cross products with the residuals. *)
Lemma cross_residuals {A : Type} (g l : A -> Q) (beta : Q) (t : list A) :
  (Qsum (map (fun d => g d * (l d - g d * beta)) t)
   == Qsum (map (fun d => g d * l d) t)
      - beta * Qsum (map (fun d => g d * g d) t))%Q.
Proof.
  induction t as [|d t IH]; cbn [map]; [cbn; ring|].
  rewrite !Qsum_cons, IH. ring.
Qed.

Lemma with_regression_lookup (t : list degrees) i d :
  t !! i = Some d ->
  with_regression t !! i
  = Some (Row (d_iter_name d) (d_local d) (d_global d)
              (d_global d * params (map d_local t) (map d_global t))%Q
              (d_local d
               - d_global d * params (map d_local t) (map d_global t))%Q).
Proof. intros Hi. unfold with_regression. by rewrite list_lookup_fmap, Hi. Qed.

Lemma with_regression_fitted (t : list degrees) (r : row) :
  r ∈ with_regression t ->
  fitted r = (global r * params (map d_local t) (map d_global t))%Q /\
  resid r = (local r - fitted r)%Q.
Proof. by intros (d & -> & _)%list_elem_of_fmap. Qed.

(** The regression columns are the attributes of the fit. *)
Lemma with_regression_columns (t : list degrees) :
  map fitted (with_regression t)
  = fittedvalues (map d_local t) (map d_global t) /\
  map resid (with_regression t)
  = residuals (map d_local t) (map d_global t).
Proof.
  unfold with_regression, residuals, fittedvalues.
  generalize (params (map d_local t) (map d_global t)). intros beta.
  split; (induction t as [|d t IH]; [done|]; cbn; by rewrite <- IH).
Qed.

(** The normal equation of a fit through the origin: the residuals are
    orthogonal to the regressor. *)
Lemma residuals_orthogonal (t : list degrees) :
  (Qsum (map (fun r => global r * resid r) (with_regression t)) == 0)%Q.
Proof.
  unfold with_regression. rewrite map_map. cbn [global resid].
  rewrite (cross_residuals d_global d_local).
  unfold params. rewrite !zip_with_columns.
  destruct (Qeq_bool _ 0) eqn:E.
  - apply Qeq_bool_iff in E.
    rewrite (Qsum_squares_zero d_global d_local t E). ring.
  - apply Qeq_bool_neq in E.
    set (sxx := Qsum (map (fun d => (d_global d * d_global d)%Q) t)) in *.
    set (sxy := Qsum (map (fun d => (d_global d * d_local d)%Q) t)) in *.
    field. exact E.
Qed.

(** The normal equation on the table itself. *)
Lemma normal_equation (t : list degrees) :
  (Qsum (map (fun d => d_global d
                       * (d_local d
                          - d_global d * params (map d_local t) (map d_global t)))
             t) == 0)%Q.
Proof.
  rewrite (cross_residuals d_global d_local).
  unfold params. rewrite !zip_with_columns.
  destruct (Qeq_bool _ 0) eqn:E.
  - apply Qeq_bool_iff in E.
    rewrite (Qsum_squares_zero d_global d_local t E). ring.
  - apply Qeq_bool_neq in E.
    set (sxx := Qsum (map (fun d => (d_global d * d_global d)%Q) t)) in *.
    set (sxy := Qsum (map (fun d => (d_global d * d_local d)%Q) t)) in *.
    field. exact E.
Qed.

End RegressionFacts.

Section RegressionClaims.

Import Regression.

Lemma labelled_length (mk : nat -> label) (bootstrap : nat -> list (Q * Q))
  (xs : list nat) :
  length (concat (map (fun x => map (fun d => Degrees (mk x) d.1 d.2)
                                    (bootstrap x)) xs))
  = length (concat (map bootstrap xs)).
Proof.
  induction xs as [|x xs IH]; [done|].
  cbn [map concat]. by rewrite !length_app, length_map, IH.
Qed.

Lemma labelled_elem (mk : nat -> label) (bootstrap : nat -> list (Q * Q))
  (n x : nat) (l g : Q) :
  (x < n)%nat -> (l, g) ∈ bootstrap x ->
  Degrees (mk x) l g
  ∈ concat (map (fun x => map (fun d => Degrees (mk x) d.1 d.2) (bootstrap x))
                (seq 0 n)).
Proof.
  intros Hx Hd. apply list_elem_of_In, in_concat.
  exists (map (fun d => Degrees (mk x) d.1 d.2) (bootstrap x)). split.
  - apply list_elem_of_In, list_elem_of_fmap. exists x.
    split; [done|]. apply elem_of_seq. lia.
  - apply list_elem_of_In, list_elem_of_fmap. by exists (l, g).
Qed.

Lemma with_regression_elem (t : list degrees) (d : degrees) :
  d ∈ t ->
  Row (d_iter_name d) (d_local d) (d_global d)
      (d_global d * params (map d_local t) (map d_global t))%Q
      (d_local d - d_global d * params (map d_local t) (map d_global t))%Q
  ∈ with_regression t.
Proof.
  intros Hd. unfold with_regression. apply list_elem_of_fmap. by exists d.
Qed.

(** C9.  The regression of local on global degree has no intercept.  Every
    record of the table gets a row, at its position: with [beta] the single
    fitted coefficient, its fitted value is [global * beta] (0 at global
    degree 0) and its residual [local - global * beta]; [beta] satisfies the
    one normal equation of a fit through the origin.  This holds for any
    table, and so for the enrichment-bootstrap and the FDR-bootstrap
    population: every record that an iteration returns is in the population
    with its label and these two columns, the population has no other row,
    and its residuals are orthogonal to the global degrees. *)
Theorem regression_through_origin :
  (forall t : list degrees,
     let beta := params (map d_local t) (map d_global t) in
     length (with_regression t) = length t /\
     (forall i d, t !! i = Some d ->
        with_regression t !! i
        = Some (Row (d_iter_name d) (d_local d) (d_global d)
                    (d_global d * beta)%Q
                    (d_local d - d_global d * beta)%Q)) /\
     (forall r, r ∈ with_regression t ->
        fitted r = (global r * beta)%Q /\ resid r = (local r - fitted r)%Q) /\
     (Qsum (map (fun d => d_global d * (d_local d - d_global d * beta)) t)
      == 0)%Q /\
     (Qsum (map (fun r => global r * resid r) (with_regression t)) == 0)%Q) /\
  (forall num_bootstraps bootstrap,
     exists beta,
       (forall x l g,
          (x < num_bootstraps)%nat -> (l, g) ∈ bootstrap x ->
          Row (Bs x) l g (g * beta)%Q (l - g * beta)%Q
          ∈ bsloc_population num_bootstraps bootstrap) /\
       (forall r, r ∈ bsloc_population num_bootstraps bootstrap ->
          fitted r = (global r * beta)%Q) /\
       length (bsloc_population num_bootstraps bootstrap)
       = length (concat (map bootstrap (seq 0 num_bootstraps))) /\
       (Qsum (map (fun r => global r * resid r)
                  (bsloc_population num_bootstraps bootstrap)) == 0)%Q) /\
  (forall num_bootstraps bootstrap,
     exists beta,
       (forall x l g,
          (x < num_bootstraps)%nat -> (l, g) ∈ bootstrap x ->
          Row (Fdr x) l g (g * beta)%Q (l - g * beta)%Q
          ∈ FDR.population num_bootstraps bootstrap) /\
       (forall r, r ∈ FDR.population num_bootstraps bootstrap ->
          fitted r = (global r * beta)%Q) /\
       length (FDR.population num_bootstraps bootstrap)
       = length (concat (map bootstrap (seq 0 num_bootstraps))) /\
       (Qsum (map (fun r => global r * resid r)
                  (FDR.population num_bootstraps bootstrap)) == 0)%Q).
Proof.
  split; [|split].
  - intros t beta. split; [unfold with_regression; by rewrite length_map|].
    split; [apply with_regression_lookup|].
    split; [apply with_regression_fitted|].
    split; [apply normal_equation|apply residuals_orthogonal].
  - intros nb b. eexists. split; [|split; [|split]].
    + intros x l g Hx Hd.
      apply (with_regression_elem _ (Degrees (Bs x) l g)).
      by apply labelled_elem.
    + intros r Hr. by apply with_regression_fitted in Hr as [Hf _].
    + unfold bsloc_population, with_regression.
      by rewrite length_map, labelled_length.
    + apply residuals_orthogonal.
  - intros nb b. eexists. split; [|split; [|split]].
    + intros x l g Hx Hd.
      apply (with_regression_elem _ (Degrees (Fdr x) l g)).
      unfold FDR.sort_global. rewrite merge_sort_Permutation.
      by apply labelled_elem.
    + intros r Hr. by apply with_regression_fitted in Hr as [Hf _].
    + unfold FDR.population, with_regression, FDR.sort_global.
      by rewrite length_map, merge_sort_Permutation, labelled_length.
    + apply residuals_orthogonal.
Qed.

(** The sample FDR population: coefficient 29/54 (printed unreduced), and
    residuals that do not add up to zero, as they would with an
    intercept. *)
Example sample_population_fit :
  map fitted (FDR.population 3 Samples.bootstrap)
  = [116 # 108; 116 # 108; 580 # 108]%Q /\
  ~ (Qsum (map resid (FDR.population 3 Samples.bootstrap)) == 0)%Q.
Proof. split; [reflexivity|]. by vm_compute. Qed.

End RegressionClaims.

(** ** The output guard *)

Section DriverFacts.

Import Driver.

Local Open Scope string_scope.

Lemma length_append (a b : string) :
  String.length (a ++ b) = (String.length a + String.length b)%nat.
Proof.
  induction a as [|c a IH]; [done|].
  change (String.length (String c (a ++ b))
          = (String.length (String c a) + String.length b)%nat).
  cbn [String.length]. by rewrite IH.
Qed.

(** Every removed occurrence shortens the string by four characters. *)
Lemma remove_csv_length_below (n : nat) : forall s,
  (String.length s < n)%nat ->
  exists j, String.length s = (String.length (remove_csv s) + 4 * j)%nat.
Proof.
  induction n as [|n IH]; intros s Hn; [lia|].
  destruct s as [|c1 s1]; [by exists 0%nat|].
  assert (H1 : exists j, String.length (String c1 s1)
                         = (String.length (String c1 (remove_csv s1)) + 4 * j)%nat).
  { destruct (IH s1) as [j Hj]; [cbn in Hn; lia|]. exists j. cbn. lia. }
  destruct c1 as [[] [] [] [] [] [] [] []]; try exact H1.
  destruct s1 as [|c2 s2]; [by exists 0%nat|].
  destruct c2 as [[] [] [] [] [] [] [] []]; try exact H1.
  destruct s2 as [|c3 s3]; [by exists 0%nat|].
  destruct c3 as [[] [] [] [] [] [] [] []]; try exact H1.
  destruct s3 as [|c4 s4]; [by exists 0%nat|].
  destruct c4 as [[] [] [] [] [] [] [] []]; try exact H1.
  destruct (IH s4) as [j Hj]; [cbn in Hn; lia|].
  exists (S j). cbn [remove_csv String.length]. lia.
Qed.

Lemma remove_csv_length (s : string) :
  exists j, String.length s = (String.length (remove_csv s) + 4 * j)%nat.
Proof. apply (remove_csv_length_below (S (String.length s))). lia. Qed.

(** X17.  The path that the guard tests is never the path that is written:
    their lengths differ by 13 minus a multiple of 4. *)
Lemma guard_path_differs (out0 : string) :
  locality_csv (locality_csv out0) <> locality_csv out0.
Proof.
  intros Heq. apply (f_equal String.length) in Heq.
  unfold locality_csv in Heq. rewrite !length_append in Heq.
  destruct (remove_csv_length (remove_csv out0 ++ "_Locality.csv")) as [j Hj].
  rewrite length_append in Hj. cbn in Heq, Hj. lia.
Qed.

End DriverFacts.

Section DriverClaims.

Import Driver.

Local Open Scope string_scope.

Example remove_csv_every_occurrence : remove_csv "a.csv/b.csv" = "a/b".
Proof. reflexivity. Qed.

Example remove_csv_single_scan : remove_csv ".c.csvsv" = ".csv".
Proof. reflexivity. Qed.

Example dirname_nested : dirname "out/run1/res_Locality.csv" = "out/run1".
Proof. reflexivity. Qed.

Example dirname_plain : dirname "res_Locality.csv" = "".
Proof. reflexivity. Qed.

Example dirname_root : dirname "/res.csv" = "/".
Proof. reflexivity. Qed.

(** C8.  With output path ["res"] and an existing ["res_Locality.csv"] (the
    table a previous run wrote), the run is not skipped: the guard tests
    ["res_Locality_Locality.csv"], the term is analyzed and the existing
    table is written over.  Conversely, when only
    ["res_Locality_Locality.csv"] exists the run is skipped although the
    table it would write does not exist. *)
Theorem existing_output_is_overwritten :
  let generate_data := fun _ : string => Ok 1%nat in
  let rerun :=
    locality string id nat generate_data false "res" ["T1"]
             (World string nat {["res_Locality.csv"]} []) in
  let other :=
    locality string id nat generate_data false "res" ["T1"]
             (World string nat {["res_Locality_Locality.csv"]} []) in
  locality_csv "res" = "res_Locality.csv" /\
  locality_csv (locality_csv "res") = "res_Locality_Locality.csv" /\
  rerun.2 = Ok () /\
  trace _ _ rerun.1
  = [Analyzed string nat "T1"; WroteCsv string nat "res_Locality.csv" [1%nat]] /\
  analyzed _ _ rerun.1 = ["T1"] /\
  written _ _ rerun.1 = ["res_Locality.csv"] /\
  other.2 = Ok () /\
  trace _ _ other.1
  = [Printed string nat "res_Locality_Locality.csv exists! Skipping!"] /\
  analyzed _ _ other.1 = [] /\
  written _ _ other.1 = [].
Proof. repeat split; by vm_compute. Qed.

End DriverClaims.

(** * Further properties *)

(** ** The window column after the merge step *)

Section WindowColumn.

Import Windowing Bsloc.

Lemma filter_ext_in {A : Type} (P Q : A -> Prop)
  `{!forall x, Decision (P x)} `{!forall x, Decision (Q x)} (l : list A) :
  (forall x, x ∈ l -> P x <-> Q x) -> filter P l = filter Q l.
Proof.
  induction l as [|x l IH]; intros Hl; [done|].
  rewrite !filter_cons.
  assert (Hx : P x <-> Q x) by apply Hl, list_elem_of_here.
  rewrite IH by (intros y Hy; by apply Hl, list_elem_of_further).
  destruct (decide (P x)), (decide (Q x)); tauto.
Qed.

Lemma filter_fmap_length {A B : Type} (P : B -> Prop)
  `{!forall y, Decision (P y)} (f : A -> B) (l : list A) :
  length (filter P (map f l)) = length (filter (fun x => P (f x)) l).
Proof.
  induction l as [|x l IH]; [done|]. cbn [map]. rewrite !filter_cons.
  destruct (decide (P (f x))); cbn [length]; by rewrite IH.
Qed.

(** The ranks of [range(n)] that fall in an interval. *)
Lemma filter_range_interval (n : nat) (lo hi : Z) :
  0 <= lo <= hi -> hi <= Z.of_nat n ->
  filter (fun i => lo <= i < hi) (range n) = seqZ lo (hi - lo).
Proof.
  intros Hlo Hhi. unfold range.
  replace (Z.of_nat n) with (lo + ((hi - lo) + (Z.of_nat n - hi))) by lia.
  rewrite !seqZ_app by lia. rewrite !filter_app.
  rewrite (filter_none _ (seqZ 0 lo))
    by (intros i Hi%elem_of_seqZ; lia).
  rewrite (filter_all _ (seqZ (0 + lo) (hi - lo)))
    by (intros i Hi%elem_of_seqZ; lia).
  rewrite (filter_none _ (seqZ _ (Z.of_nat n - hi)))
    by (intros i Hi%elem_of_seqZ; lia).
  rewrite app_nil_r. cbn. f_equal.
Qed.

(** The number of ranks that an index function sends to [x], when these
    ranks form an interval. *)
Lemma count_interval (g : Z -> Z) (n : nat) (x lo hi : Z) :
  0 <= lo <= hi -> hi <= Z.of_nat n ->
  (forall i, 0 <= i < Z.of_nat n -> g i = x <-> lo <= i < hi) ->
  count_eq x (map g (range n)) = hi - lo.
Proof.
  intros Hlo Hhi Hg. unfold count_eq.
  rewrite filter_fmap_length.
  rewrite (filter_ext_in _ (fun i => lo <= i < hi))
    by (intros i Hi%range_elem; by apply Hg).
  rewrite filter_range_interval by done.
  rewrite length_seqZ. lia.
Qed.

Lemma div_eq_interval (i t x : Z) :
  0 < t -> i / t = x <-> x * t <= i < (x + 1) * t.
Proof.
  intros Ht. split.
  - intros <-. pose proof (Z.mul_div_le i t Ht).
    pose proof (Z.mul_succ_div_gt i t Ht). lia.
  - intros Hi. symmetry. apply (Z.div_unique_pos i t x (i - x * t)); lia.
Qed.

(** The final index of rank [i]: its tick window, or the window before the
    remainder window when that one is merged. *)
Lemma windowing_eq (w : Z) (n : nat) :
  0 < w <= Z.of_nat n ->
  let k := Z.of_nat n / w in
  let t := Z.of_nat n / k in
  let r := Z.of_nat n - k * t in
  windowing w n
  = Ok (map (fun i => if decide (0 < r /\ 2 * r < w)
                      then Z.min (i / t) (k - 1) else i / t)
            (range n)).
Proof.
  intros H k t r.
  destruct (ticks_bounds _ _ H) as (Hk & Ht & Hkt & Hr).
  fold k t in Hk, Ht, Hkt, Hr. fold r in Hr.
  unfold windowing. rewrite assign_windows_eq by done. fold k t.
  cbn [mbind result_bind Py.bind].
  set (col := map (fun i => i / t) (range n)).
  assert (Hne : col <> []).
  { unfold col, range. rewrite (seqZ_cons 0) by lia. done. }
  destruct (max_spec col Hne) as (mx & Hmx & Hin & Hub).
  assert (Hr0 : 0 <= r) by (unfold r; lia).
  clearbody k t.
  assert (Hmxv : mx = (Z.of_nat n - 1) / t).
  { apply Z.le_antisymm.
    - apply list_elem_of_fmap in Hin as (i & -> & Hi%range_elem).
      apply Z.div_le_mono; lia.
    - apply Hub. apply list_elem_of_fmap. exists (Z.of_nat n - 1).
      split; [done|]. apply range_elem. lia. }
  assert (Hmxk : (r = 0 /\ mx = k - 1) \/ (0 < r /\ mx = k)).
  { rewrite Hmxv. destruct (decide (r = 0)); [left|right]; (split; [lia|]).
    - symmetry. apply (Z.div_unique_pos _ t (k - 1) (t - 1)); lia.
    - symmetry. apply (Z.div_unique_pos _ t k (r - 1)); lia. }
  assert (Hcount : count_eq mx col = Z.of_nat n - mx * t).
  { unfold col. apply count_interval.
    - destruct Hmxk as [[? ->]|[? ->]]; nia.
    - lia.
    - intros i Hi. rewrite div_eq_interval by lia.
      destruct Hmxk as [[? ->]|[? ->]]; nia. }
  unfold merge_last. rewrite Hmx. cbn [mbind result_bind Py.bind].
  rewrite Hcount.
  destruct (lt_half (Z.of_nat n - mx * t) w) eqn:Hlt.
  - apply lt_half_int in Hlt.
    destruct Hmxk as [[Hz ->]|[Hz ->]]; [nia|].
    f_equal. unfold col. rewrite map_map. apply map_ext_in.
    intros i Hi%list_elem_of_In%range_elem.
    destruct (decide (0 < r /\ 2 * r < w)) as [_|Hn];
      [|exfalso; apply Hn; unfold r; lia].
    assert (i / t < k + 1) by (apply Z.div_lt_upper_bound; nia).
    destruct (decide (i / t = k)); lia.
  - assert (Hge : ~ 2 * (Z.of_nat n - mx * t) < w).
    { intros Hc%lt_half_int. congruence. }
    f_equal. unfold col. apply map_ext_in. intros i _.
    destruct (decide (0 < r /\ 2 * r < w)) as [[? ?]|]; [|done].
    unfold r in *. destruct Hmxk as [[Hz ->]|[Hz ->]]; lia.
Qed.

End WindowColumn.

Section WindowInvariants.

Import Windowing Bsloc.

Lemma div_ge_iff (i t q : Z) : 0 < t -> q <= i / t <-> q * t <= i.
Proof.
  intros Ht. split.
  - intros Hq. pose proof (Z.mul_div_le i t Ht). nia.
  - intros Hq. apply Z.div_le_lower_bound; lia.
Qed.

(** The window column of a population of at least one window never
    decreases along the ranks. *)
Lemma windowing_shape (w : Z) (n : nat) :
  0 < w <= Z.of_nat n ->
  exists col,
    windowing w n = Ok col /\ length col = n /\ nondecreasing col.
Proof.
  intros H. pose proof (windowing_eq w n H) as Heq. cbv zeta in Heq.
  destruct (ticks_bounds _ _ H) as (Hk & Ht & _ & _).
  set (k := Z.of_nat n / w) in *. set (t := Z.of_nat n / k) in *.
  set (r := Z.of_nat n - k * t) in *.
  eexists. split; [exact Heq|].
  split; [unfold range; rewrite length_map, length_seqZ; lia|].
  intros i j x y Hij. unfold range. rewrite !list_lookup_fmap.
  destruct (seqZ 0 (Z.of_nat n) !! i) as [a|] eqn:Ea; [|done].
  destruct (seqZ 0 (Z.of_nat n) !! j) as [b|] eqn:Eb; [|done].
  apply lookup_seqZ in Ea as [-> _]. apply lookup_seqZ in Eb as [-> _].
  cbn. intros [= <-] [= <-].
  assert (Hd : (0 + Z.of_nat i) / t <= (0 + Z.of_nat j) / t)
    by (apply Z.div_le_mono; clearbody k t; lia).
  clearbody k t. destruct (decide _); lia.
Qed.

(** X1.  For a population of at least one window ([n >= w > 0]) the
    windowing step with its merge never raises; the window column has one
    index per record, starts at 0, never decreases along the ranks, rises by
    at most one from a rank to the next, and stays within
    [0, n // w]. *)
Theorem windowing_column (w : Z) (n : nat) :
  0 < w <= Z.of_nat n ->
  exists col,
    windowing w n = Ok col /\
    length col = n /\
    col !! 0%nat = Some 0 /\
    nondecreasing col /\
    (forall i x y, col !! i = Some x -> col !! S i = Some y -> y <= x + 1) /\
    (forall x, x ∈ col -> 0 <= x <= Z.of_nat n / w).
Proof.
  intros H. pose proof (windowing_eq w n H) as Heq. cbv zeta in Heq.
  destruct (ticks_bounds _ _ H) as (Hk & Ht & Hkt & Hr).
  set (k := Z.of_nat n / w) in *. set (t := Z.of_nat n / k) in *.
  set (r := Z.of_nat n - k * t) in *.
  set (f := fun i => if decide (0 < r /\ 2 * r < w)
                     then Z.min (i / t) (k - 1) else i / t) in *.
  assert (Ht0 : 0 < t) by (clearbody k t; lia).
  assert (Hmono : forall i j, 0 <= i <= j -> 0 <= f i <= f j).
  { intros i j Hij. unfold f.
    assert (0 <= i / t) by (apply Z.div_pos; lia).
    assert (i / t <= j / t) by (apply Z.div_le_mono; lia).
    clearbody k t. destruct (decide _); lia. }
  assert (Hstep : forall i, 0 <= i -> f (i + 1) <= f i + 1).
  { intros i Hi. unfold f.
    assert ((i + 1) / t <= i / t + 1).
    { enough ((i + 1) / t < i / t + 2) by lia.
      apply Z.div_lt_upper_bound; [done|].
      pose proof (Z.mul_succ_div_gt i t Ht0). clearbody k t. nia. }
    clearbody k t. destruct (decide _); lia. }
  assert (Hub : forall i, 0 <= i < Z.of_nat n -> f i <= k).
  { intros i Hi. unfold f.
    assert (i / t < k + 1)
      by (apply Z.div_lt_upper_bound; clearbody k t; nia).
    clearbody k t. destruct (decide _); lia. }
  assert (Hlook : forall i x,
             map f (range n) !! i = Some x ->
             x = f (Z.of_nat i) /\ (i < n)%nat).
  { intros i x. unfold range. rewrite list_lookup_fmap.
    destruct (seqZ 0 (Z.of_nat n) !! i) as [m|] eqn:E; [|done].
    apply lookup_seqZ in E as [-> Hi]. cbn. intros [= <-].
    split; [f_equal; lia|lia]. }
  exists (map f (range n)). split; [exact Heq|].
  split; [unfold range; rewrite length_map, length_seqZ; lia|].
  split.
  { unfold range. rewrite list_lookup_fmap, lookup_seqZ_lt by lia. cbn.
    f_equal. unfold f. rewrite Z.div_small by lia.
    clearbody k t. destruct (decide _); lia. }
  split.
  { intros i j x y Hij [-> _]%Hlook [-> _]%Hlook. apply Hmono. lia. }
  split.
  { intros i x y [-> _]%Hlook [-> _]%Hlook.
    replace (Z.of_nat (S i)) with (Z.of_nat i + 1) by lia. apply Hstep. lia. }
  intros x (i & -> & Hi%range_elem)%list_elem_of_fmap.
  split; [apply (Hmono i i); lia|by apply Hub].
Qed.

Lemma windowing_column_witness :
  exists col,
    windowing 3 7 = Ok col /\
    length col = 7%nat /\
    col !! 0%nat = Some 0 /\
    nondecreasing col /\
    (forall i x y, col !! i = Some x -> col !! S i = Some y -> y <= x + 1) /\
    (forall x, x ∈ col -> 0 <= x <= 7 / 3).
Proof. apply (windowing_column 3 7). lia. Defined.

(** X2.  After the merge step no window is under-populated: every window
    of the column holds at least [w/2] records, and every window below the
    highest one holds at least [w]. *)
Theorem window_occupancy (w : Z) (n : nat) (col : list Z) (x : Z) :
  0 < w <= Z.of_nat n ->
  windowing w n = Ok col ->
  x ∈ col ->
  w <= 2 * count_eq x col /\
  ((exists y, y ∈ col /\ x < y) -> w <= count_eq x col).
Proof.
  intros H Hcol Hx. pose proof (windowing_eq w n H) as Heq. cbv zeta in Heq.
  destruct (ticks_bounds _ _ H) as (Hk & Ht & Hkt & Hr).
  set (k := Z.of_nat n / w) in *. set (t := Z.of_nat n / k) in *.
  set (r := Z.of_nat n - k * t) in *.
  rewrite Heq in Hcol. injection Hcol as <-.
  clearbody k t.
  assert (Hdiv : forall i, 0 <= i < Z.of_nat n -> 0 <= i / t < k + 1).
  { intros i Hi. split; [apply Z.div_pos; lia|].
    apply Z.div_lt_upper_bound; nia. }
  destruct (decide (0 < r /\ 2 * r < w)) as [[Hr0 Hr2]|Hnm].
  - (* the remainder window is merged into window k-1 *)
    apply list_elem_of_fmap in Hx as (i0 & -> & Hi0%range_elem).
    pose proof (Hdiv i0 Hi0) as Hd0.
    set (x := Z.min (i0 / t) (k - 1)).
    assert (Hxr : 0 <= x <= k - 1) by (unfold x; lia).
    assert (Hc : count_eq x (map (fun i => Z.min (i / t) (k - 1)) (range n))
                 = (if decide (x = k - 1) then Z.of_nat n else (x + 1) * t)
                   - x * t).
    { apply count_interval.
      - destruct (decide (x = k - 1)); unfold r in *; nia.
      - destruct (decide (x = k - 1)); unfold r in *; nia.
      - intros i Hi. pose proof (Hdiv i Hi) as Hd.
        destruct (decide (x = k - 1)) as [Hxk|Hxk].
        + rewrite Hxk. rewrite <- (div_ge_iff i t (k - 1)) by lia. lia.
        + rewrite <- div_eq_interval by lia. lia. }
    rewrite Hc. destruct (decide (x = k - 1)); unfold r in *; split; nia.
  - (* no merge *)
    apply list_elem_of_fmap in Hx as (i0 & -> & Hi0%range_elem).
    pose proof (Hdiv i0 Hi0) as Hd0.
    set (x := i0 / t) in *.
    assert (Hxt : x * t <= i0) by (unfold x; pose proof (Z.mul_div_le i0 t); lia).
    assert (Hc : count_eq x (map (fun i => i / t) (range n))
                 = Z.min (Z.of_nat n) ((x + 1) * t) - x * t).
    { apply count_interval; [nia|lia|].
      intros i Hi. rewrite div_eq_interval by lia. lia. }
    rewrite Hc. split.
    + destruct (Z.min_spec (Z.of_nat n) ((x + 1) * t)) as [[Hlt ->]|[Hge ->]];
        [|nia].
      assert (x = k) by nia. unfold r in *. subst x. nia.
    + intros (y & (j & -> & Hj%range_elem)%list_elem_of_fmap & Hxy).
      pose proof (Hdiv j Hj). nia.
Qed.

Lemma window_occupancy_witness :
  3 <= 2 * count_eq 1 [0; 0; 0; 1; 1; 1; 1] /\
  2 <= 2 * count_eq 2 [0; 0; 1; 1; 2].
Proof.
  split.
  - refine (proj1 (window_occupancy 3 7 [0; 0; 0; 1; 1; 1; 1] 1 _ _ _)).
    + lia.
    + reflexivity.
    + repeat constructor.
  - refine (proj1 (window_occupancy 2 5 [0; 0; 1; 1; 2] 2 _ _ _)).
    + lia.
    + reflexivity.
    + repeat constructor.
Defined.

End WindowInvariants.

(** ** The windowed bootstrap table *)

Section WindowedTable.

Import Windowing Bsloc.

Lemma Qle_bool_total (a b : Q) : Qle_bool a b = true \/ Qle_bool b a = true.
Proof.
  destruct (Qlt_le_dec b a) as [Hlt|Hle].
  - right. by apply Qle_bool_iff, Qlt_le_weak.
  - left. by apply Qle_bool_iff.
Qed.

Lemma Qle_bool_trans (a b c : Q) :
  Qle_bool a b = true -> Qle_bool b c = true -> Qle_bool a c = true.
Proof.
  rewrite !Qle_bool_iff. apply Qle_trans.
Qed.

#[local] Instance by_key_total {A : Type} (key : A -> Q) :
  Total (fun a b => Is_true (Qle_bool (key a) (key b))).
Proof.
  intros a b. destruct (Qle_bool_total (key a) (key b)) as [H|H];
    rewrite H; [by left|by right].
Qed.

#[local] Instance by_key_trans {A : Type} (key : A -> Q) :
  Transitive (fun a b => Is_true (Qle_bool (key a) (key b))).
Proof.
  intros a b c Hab%Is_true_true Hbc%Is_true_true.
  apply Is_true_true. by eapply Qle_bool_trans.
Qed.

Lemma StronglySorted_lookup_lt {A : Type} (R : relation A) (l : list A) :
  StronglySorted R l ->
  forall i j x y, (i < j)%nat -> l !! i = Some x -> l !! j = Some y -> R x y.
Proof.
  induction 1 as [|a l Hl IH Ha]; intros i j x y Hij Hi Hj; [done|].
  destruct j as [|j]; [lia|]. cbn in Hj.
  destruct i as [|i].
  - cbn in Hi. injection Hi as <-.
    rewrite Forall_forall in Ha. apply Ha. by eapply list_elem_of_lookup_2.
  - cbn in Hi. apply (IH i j); [lia|done|done].
Qed.

Lemma sorted_by_key {A : Type} (key : A -> Q) (t : list A) i j x y :
  (i <= j)%nat ->
  merge_sort (fun a b => Is_true (Qle_bool (key a) (key b))) t !! i = Some x ->
  merge_sort (fun a b => Is_true (Qle_bool (key a) (key b))) t !! j = Some y ->
  (key x <= key y)%Q.
Proof.
  intros Hij Hi Hj. destruct (decide (i = j)) as [->|Hne].
  - rewrite Hi in Hj. injection Hj as <-. apply Qle_refl.
  - pose proof (StronglySorted_lookup_lt
                  (fun a b => Is_true (Qle_bool (key a) (key b))) _
                  (StronglySorted_merge_sort _ t) i j x y
                  ltac:(lia) Hi Hj) as HR.
    cbn beta in HR. by apply Qle_bool_iff, Is_true_true.
Qed.

(** X3.  For a bootstrap table of at least one window the windowed table is
    built without error: it holds exactly the records of the table, in
    ascending order of fitted value, and its windows cut the fitted axis
    into consecutive pieces: a record in a lower window never has a larger
    fitted value than a record in a higher window. *)
Theorem windows_partition_fitted_axis (w : Z) (bsloc : list row) :
  0 < w <= Z.of_nat (length bsloc) ->
  exists rows,
    windowed w bsloc = Ok rows /\
    map fst rows ≡ₚ bsloc /\
    (forall i j r1 x1 r2 x2,
       (i <= j)%nat ->
       rows !! i = Some (r1, x1) -> rows !! j = Some (r2, x2) ->
       (fitted r1 <= fitted r2)%Q /\ x1 <= x2) /\
    (forall i j r1 x1 r2 x2,
       rows !! i = Some (r1, x1) -> rows !! j = Some (r2, x2) ->
       x1 < x2 -> (fitted r1 <= fitted r2)%Q).
Proof.
  intros H.
  assert (Hlen : length (sort_fitted bsloc) = length bsloc).
  { unfold sort_fitted. by rewrite merge_sort_Permutation. }
  destruct (windowing_shape w (length bsloc) H) as (col & Hcol & Hcl & Hnd).
  exists (zip (sort_fitted bsloc) col).
  split; [unfold windowed; rewrite Hlen, Hcol; done|].
  split.
  { change (map fst ?l) with (l.*1). rewrite fst_zip by lia.
    apply merge_sort_Permutation. }
  assert (Hord : forall i j r1 x1 r2 x2,
             (i <= j)%nat ->
             zip (sort_fitted bsloc) col !! i = Some (r1, x1) ->
             zip (sort_fitted bsloc) col !! j = Some (r2, x2) ->
             (fitted r1 <= fitted r2)%Q /\ x1 <= x2).
  { intros i j r1 x1 r2 x2 Hij [Hr1 Hx1]%lookup_zip_Some [Hr2 Hx2]%lookup_zip_Some.
    split; [by eapply (sorted_by_key fitted bsloc i j)|by eapply Hnd]. }
  split; [exact Hord|].
  intros i j r1 x1 r2 x2 Hi Hj Hlt.
  destruct (decide (i <= j)%nat) as [Hij|Hij].
  - by destruct (Hord _ _ _ _ _ _ Hij Hi Hj).
  - assert (Hji : (j <= i)%nat) by lia.
    destruct (Hord _ _ _ _ _ _ Hji Hj Hi). lia.
Qed.

End WindowedTable.

Section WindowedWitness.

Import Windowing Bsloc.

Lemma windows_partition_fitted_axis_witness :
  exists rows,
    windowed 1 [Row (Bs 0) 3 4 2 1; Row (Bs 1) 1 2 1 0] = Ok rows /\
    map fst rows ≡ₚ [Row (Bs 0) 3 4 2 1; Row (Bs 1) 1 2 1 0] /\
    (forall i j r1 x1 r2 x2,
       (i <= j)%nat ->
       rows !! i = Some (r1, x1) -> rows !! j = Some (r2, x2) ->
       (fitted r1 <= fitted r2)%Q /\ x1 <= x2) /\
    (forall i j r1 x1 r2 x2,
       rows !! i = Some (r1, x1) -> rows !! j = Some (r2, x2) ->
       x1 < x2 -> (fitted r1 <= fitted r2)%Q).
Proof.
  apply (windows_partition_fitted_axis
           1 [Row (Bs 0) 3 4 2 1; Row (Bs 1) 1 2 1 0]).
  cbn. lia.
Defined.

Example windowed_sample :
  windowed 1 [Row (Bs 0) 3 4 2 1; Row (Bs 1) 1 2 1 0]
  = Ok [(Row (Bs 1) 1 2 1 0, 0); (Row (Bs 0) 3 4 2 1, 1)].
Proof. reflexivity. Qed.

End WindowedWitness.

(** ** Counts and values of the gene-specific loop *)

Section LoopValues.

Import FDR.

(** A z-score that reaches a threshold reaches every lower one. *)
Lemma ge_antitone (z : fl) (a b : Q) :
  (a <= b)%Q -> ge z (Fin b) = true -> ge z (Fin a) = true.
Proof.
  intros Hab. destruct z as [q| | |]; try done. cbn.
  rewrite !Qle_bool_iff. intros Hb. by eapply Qle_trans.
Qed.

Lemma ge_antitone_int (z : fl) (s t : Z) :
  s <= t -> ge z (of_int t) = true -> ge z (of_int s) = true.
Proof. intros Hst. apply ge_antitone. by rewrite <- Zle_Qle. Qed.

Lemma filter_length_le {A : Type} (P Q : A -> Prop)
  `{!forall x, Decision (P x)} `{!forall x, Decision (Q x)} (l : list A) :
  (forall x, x ∈ l -> P x -> Q x) ->
  (length (filter P l) <= length (filter Q l))%nat.
Proof.
  induction l as [|x l IH]; intros Hl; [done|].
  assert (IH' := IH (fun y Hy => Hl y (list_elem_of_further _ _ _ Hy))).
  pose proof (Hl x (list_elem_of_here _ _)) as Hx.
  rewrite !filter_cons.
  destruct (decide (P x)), (decide (Q x)); cbn [length]; try lia. tauto.
Qed.

Lemma remove_dups_length_le {A : Type} `{!EqDecision A} (l : list A) :
  (length (remove_dups l) <= length l)%nat.
Proof.
  apply submseteq_length, NoDup_submseteq; [apply NoDup_remove_dups|].
  intros x. by rewrite elem_of_remove_dups.
Qed.

Lemma num_random_none (fdr : list zrow) (t : Z) :
  at_least zscore t fdr = [] -> num_random fdr t = 0%Q.
Proof. intros He. unfold num_random. by rewrite He. Qed.

(** X4.  The bootstrap count of a pass is never a fraction below one: it is
    0 when no FDR record reaches the threshold and at least 1 otherwise, so
    every FDR value that a pass stores is strictly positive. *)
Theorem num_random_zero_or_at_least_one (fdr : list zrow) (t : Z) :
  (at_least zscore t fdr = [] -> num_random fdr t = 0%Q) /\
  (at_least zscore t fdr <> [] -> (1 <= num_random fdr t)%Q) /\
  (forall n_real : Z, 0 <= n_real -> (0 < zfdr n_real (num_random fdr t))%Q).
Proof.
  pose proof (num_random_none fdr t) as Hzero.
  assert (Hone : at_least zscore t fdr <> [] -> (1 <= num_random fdr t)%Q).
  { intros Hne. rewrite (num_random_mean_over_hit_iterations fdr t Hne).
    set (hits := at_least zscore t fdr) in *.
    set (ks := remove_dups (map (fun r : zrow => iter_name r) hits)).
    assert (Hks : (0 < length ks)%nat).
    { apply remove_dups_nonempty. by destruct hits. }
    assert (Hle : (length ks <= length hits)%nat).
    { unfold ks. etrans; [apply remove_dups_length_le|]. by rewrite length_map. }
    apply Qle_shift_div_l.
    - change 0%Q with (inject_Z 0). rewrite <- Zlt_Qlt. lia.
    - rewrite Qmult_1_l, <- Zle_Qle. lia. }
  split; [done|]. split; [done|].
  intros n_real Hn. unfold zfdr.
  destruct (negb (n_real =? 0)) eqn:E1; cbn [andb]; [|done].
  destruct (Qeq_bool (num_random fdr t) 0) eqn:E2; cbn [negb]; [done|].
  apply negb_true_iff, Z.eqb_neq in E1.
  apply Qeq_bool_neq in E2.
  destruct (decide (at_least zscore t fdr = [])) as [He|Hne].
  { rewrite (Hzero He) in E2. by destruct E2. }
  apply Qlt_shift_div_l.
  - change 0%Q with (inject_Z 0). rewrite <- Zlt_Qlt. lia.
  - rewrite Qmult_0_l. eapply Qlt_le_trans; [|apply (Hone Hne)]. done.
Qed.

(** X5.  The number of empirical records at or above a threshold never
    grows with the threshold. *)
Theorem num_real_antitone (loc : list frow) (s t : Z) :
  s <= t -> num_real loc t <= num_real loc s.
Proof.
  intros Hst. unfold num_real, at_least.
  apply Nat2Z.inj_le, filter_length_le.
  intros r _ Hr%Is_true_true. apply Is_true_true.
  by apply (ge_antitone_int _ s t).
Qed.

Lemma num_real_antitone_witness :
  num_real (map (fun r => FRow r None) Samples.loc) 4
  <= num_real (map (fun r => FRow r None) Samples.loc) 1.
Proof. apply (num_real_antitone _ 1 4). lia. Defined.

(** X6.  The loop writes the [fdr] column only: the returned table has the
    records of the empirical table, unchanged and in the same order. *)
Theorem loop_keeps_records (loc fdr : list zrow) :
  map f_row (gene_specific_fdr loc fdr) = loc.
Proof.
  unfold gene_specific_fdr. rewrite loop_settles, !map_map.
  rewrite <- (map_id loc) at 2. apply map_ext. intros r.
  by rewrite settle_f_row.
Qed.

(** X7.  When no FDR record reaches threshold 0, in particular when the
    global-degree filter leaves none, every empirical record with a
    z-score of at least 0 ends with the FDR value 1 and the others with
    none. *)
Theorem no_bootstrap_hit_gives_one
  (loc fdr : list zrow) (i : nat) (r : zrow) :
  at_least zscore 0 fdr = [] ->
  loc !! i = Some r ->
  gene_specific_fdr loc fdr !! i
  = Some (FRow r (if ge (zscore r) (of_int 0) then Some 1%Q else None)).
Proof.
  intros Hnone Hi. rewrite (gene_specific_row _ _ _ _ Hi).
  assert (Hall : forall t, 0 <= t -> num_random fdr t = 0%Q).
  { intros t Ht. apply num_random_none.
    unfold at_least in *. apply filter_none.
    intros x Hx Hge%Is_true_true.
    assert (Hin : x ∈ filter (fun r0 : zrow => Is_true (ge (zscore r0) (of_int 0))) fdr).
    { apply list_elem_of_filter. split; [|done].
      apply Is_true_true. by apply (ge_antitone_int _ 0 t). }
    rewrite Hnone in Hin. by apply not_elem_of_nil in Hin. }
  destruct (last_hit (zscore r) (seqZ 0 8)) as [t|] eqn:E.
  - apply last_hit_some in E as [Ht%elem_of_seqZ Hge].
    rewrite (ge_antitone_int _ 0 t) by (lia || done).
    rewrite Hall by lia. unfold zfdr. cbn. by rewrite andb_false_r.
  - destruct (ge (zscore r) (of_int 0)) eqn:E0; [|done].
    destruct (last_hit_is_some (zscore r) (seqZ 0 8) 0) as [t Ht];
      [by apply elem_of_seqZ|done|congruence].
Qed.

Lemma no_bootstrap_hit_gives_one_witness :
  gene_specific_fdr Samples.loc [] !! 1%nat
  = Some (FRow Samples.e2 (Some 1%Q)).
Proof.
  apply (no_bootstrap_hit_gives_one Samples.loc [] 1 Samples.e2); reflexivity.
Defined.

End LoopValues.

(** ** The FDR population and its filter *)

Section PopulationFacts.

Import FDR Regression.

Lemma foldl_Qmax2_spec (xs : list Q) : forall x,
  foldl Qmax2 x xs ∈ x :: xs /\
  (forall y, y ∈ x :: xs -> (y <= foldl Qmax2 x xs)%Q).
Proof.
  induction xs as [|a xs IH]; intros x; cbn [foldl].
  - split; [apply list_elem_of_here|].
    intros y ->%list_elem_of_singleton. apply Qle_refl.
  - destruct (IH (Qmax2 x a)) as [Hin Hub].
    assert (Hm : (x <= Qmax2 x a)%Q /\ (a <= Qmax2 x a)%Q
                 /\ (Qmax2 x a = x \/ Qmax2 x a = a)).
    { unfold Qmax2. destruct (Qle_bool a x) eqn:E.
      - apply Qle_bool_iff in E. split; [apply Qle_refl|]. split; [done|by left].
      - split; [|split; [apply Qle_refl|by right]].
        destruct (Qle_bool_total a x) as [Hc|Hc]; [congruence|].
        by apply Qle_bool_iff. }
    destruct Hm as (Hx & Ha & Hsel). split.
    + apply elem_of_cons in Hin as [Hin|Hin].
      * rewrite Hin. destruct Hsel as [->| ->].
        -- apply list_elem_of_here.
        -- apply list_elem_of_further, list_elem_of_here.
      * by do 2 apply list_elem_of_further.
    + intros y Hy.
      assert (Htop : (Qmax2 x a <= foldl Qmax2 (Qmax2 x a) xs)%Q)
        by apply Hub, list_elem_of_here.
      apply elem_of_cons in Hy as [->|Hy]; [by eapply Qle_trans|].
      apply elem_of_cons in Hy as [->|Hy]; [by eapply Qle_trans|].
      by apply Hub, list_elem_of_further.
Qed.

(** X8.  The global-degree filter raises [ValueError] for an empty
    empirical table.  Otherwise it keeps, in their order, exactly the FDR
    records whose global degree is at most that of some empirical record. *)
Theorem restrict_global_keeps_dominated (loc : list zrow) (fdr : list row) :
  (loc = [] -> restrict_global loc fdr = Raise ValueError) /\
  (loc <> [] ->
   exists kept,
     restrict_global loc fdr = Ok kept /\
     sublist kept fdr /\
     forall r, r ∈ kept <->
               r ∈ fdr /\ exists e : zrow, e ∈ loc /\ (global r <= global e)%Q).
Proof.
  split; [by intros ->|].
  intros Hne. destruct loc as [|e0 loc]; [done|].
  unfold restrict_global. cbn [map max_global mbind result_bind Py.bind].
  destruct (foldl_Qmax2_spec (map (fun r : zrow => global r) loc) (global e0))
    as [Hin Hub].
  set (top := foldl Qmax2 (global e0) (map (fun r : zrow => global r) loc)) in *.
  eexists. split; [reflexivity|]. split; [apply sublist_filter|].
  intros r. rewrite list_elem_of_filter. split.
  - intros [Hle%Is_true_true%Qle_bool_iff Hr]. split; [done|].
    change (global e0 :: map (fun r : zrow => global r) loc)
      with (map (fun r : zrow => global r) (e0 :: loc)) in Hin.
    apply list_elem_of_fmap in Hin as (e & He & Hel).
    exists e. split; [done|]. by rewrite <- He.
  - intros [Hr (e & He & Hle)]. split; [|done].
    apply Is_true_true, Qle_bool_iff. eapply Qle_trans; [exact Hle|].
    apply Hub.
    change (global e0 :: map (fun r : zrow => global r) loc)
      with (map (fun r : zrow => global r) (e0 :: loc)).
    apply list_elem_of_fmap. by exists e.
Qed.

Lemma with_regression_degrees (t : list degrees) :
  map Fit.degrees_of (with_regression t) = t.
Proof.
  unfold with_regression. rewrite map_map.
  rewrite <- (map_id t) at 2. apply map_ext. by intros [].
Qed.

(** X9.  Both bootstrap populations hold exactly the records that the
    iterations return, each labelled with its iteration: the enrichment
    population in the order of the iterations, the FDR population reordered
    by ascending global degree.  The regression only adds columns. *)
Theorem populations_hold_every_record
  (num_bootstraps : nat) (bootstrap : nat -> list (Q * Q)) :
  map Fit.degrees_of (bsloc_population num_bootstraps bootstrap)
  = concat (map (fun x => map (fun d => Degrees (Bs x) d.1 d.2) (bootstrap x))
                (seq 0 num_bootstraps)) /\
  map Fit.degrees_of (population num_bootstraps bootstrap)
  ≡ₚ concat (map (fun x => map (fun d => Degrees (Fdr x) d.1 d.2) (bootstrap x))
                 (seq 0 num_bootstraps)) /\
  (forall i j r1 r2,
     (i <= j)%nat ->
     population num_bootstraps bootstrap !! i = Some r1 ->
     population num_bootstraps bootstrap !! j = Some r2 ->
     (global r1 <= global r2)%Q).
Proof.
  split; [apply with_regression_degrees|]. split.
  - unfold population. rewrite with_regression_degrees.
    apply merge_sort_Permutation.
  - intros i j r1 r2 Hij. unfold population, with_regression.
    rewrite !list_lookup_fmap.
    destruct (sort_global _ !! i) as [d1|] eqn:E1; [|done].
    destruct (sort_global _ !! j) as [d2|] eqn:E2; [|done].
    cbn. intros [= <-] [= <-]. cbn.
    by eapply (sorted_by_key d_global _ i j).
Qed.

End PopulationFacts.

Section ZeroEstimate.

Import ZScore.

(** X10.  The row cells reach the division as Python floats, so a single
    record whose standard deviation estimate is zero makes the whole
    z-score step raise [ZeroDivisionError]: no z-score is returned for any
    record. *)
Theorem zero_estimate_aborts_python_floats
  (fit_std : Q -> fl) (t : list row) (r : row) :
  r ∈ t ->
  is_zero (fit_std (fitted r)) = true ->
  with_zscore fit_std t = Raise ZeroDivisionError.
Proof.
  intros Hr Hz. unfold with_zscore.
  induction t as [|r0 t IH]; [by apply not_elem_of_nil in Hr|].
  cbn [comprehension]. unfold zscore_of at 1.
  cbn [mbind result_bind Py.bind].
  destruct (truediv (Fin (resid r0)) (fit_std (fitted r0)))
    as [z|e] eqn:E; cbn [Py.bind].
  - apply elem_of_cons in Hr as [->|Hr].
    + rewrite truediv_zero in E by done. done.
    + by rewrite (IH Hr).
  - by rewrite (truediv_raises _ _ _ E).
Qed.

Lemma zero_estimate_aborts_python_floats_witness :
  with_zscore (fun f => if Qeq_bool f 2 then Fin 0 else Fin 1)
              [Row Emp 1 2 1 0; Row Emp 3 4 2 1]
  = Raise ZeroDivisionError.
Proof.
  apply (zero_estimate_aborts_python_floats _ _ (Row Emp 3 4 2 1)).
  - repeat constructor.
  - reflexivity.
Defined.

End ZeroEstimate.

(** ** The fitted coefficient *)

Section LeastSquares.

Import Regression Fit.

(** The residual sum of squares of any slope, split around a slope
    [beta]. *)
Lemma rss_split (beta b : Q) (t : list degrees) :
  (rss b t
   == rss beta t
      + 2 * (beta - b)
        * Qsum (map (fun d => d_global d * (d_local d - d_global d * beta)) t)
      + (beta - b) * (beta - b)
        * Qsum (map (fun d => d_global d * d_global d) t))%Q.
Proof.
  unfold rss. induction t as [|d t IH]; cbn [map]; [cbn; ring|].
  rewrite !Qsum_cons, IH. ring.
Qed.

(** X11.  The fitted coefficient is the least-squares slope of a line
    through the origin: the squared residuals of the regression columns add
    up to no more than the squared residuals of any other slope. *)
Theorem fit_minimises_squared_residuals (t : list degrees) (b : Q) :
  (Qsum (map (fun r => resid r * resid r) (with_regression t)) <= rss b t)%Q.
Proof.
  set (beta := params (map d_local t) (map d_global t)).
  assert (Hres : Qsum (map (fun r => (resid r * resid r)%Q) (with_regression t))
                 = rss beta t).
  { unfold with_regression, rss. by rewrite map_map. }
  rewrite Hres, (rss_split beta b t).
  pose proof (normal_equation t) as Hn. fold beta in Hn. rewrite Hn.
  pose proof (square_nonneg (beta - b)) as H1.
  pose proof (Qsum_squares_nonneg d_global t) as H2.
  pose proof (Qmult_le_0_compat _ _ H1 H2) as H3.
  set (X := ((beta - b) * (beta - b)
              * Qsum (map (fun d => (d_global d * d_global d)%Q) t))%Q) in *.
  assert (E : (rss beta t + 2 * (beta - b) * 0 + X == rss beta t + X)%Q) by ring.
  rewrite E. rewrite <- (Qplus_0_r (rss beta t)) at 1.
  apply Qplus_le_compat; [apply Qle_refl|exact H3].
Qed.

End LeastSquares.

(** ** Counts behind the z-score plot *)

Section PlotCounts.

Import FDR Plot.

Lemma zscores_lookup (i : nat) (x : Q) :
  zscores !! i = Some x ->
  x = (1 + inject_Z (Z.of_nat i) / 2)%Q /\ (i < 14)%nat.
Proof.
  unfold zscores. rewrite list_lookup_fmap.
  destruct (seq 0 14 !! i) as [k|] eqn:E; [|done].
  apply lookup_seq in E as [-> Hi]. cbn. by intros [= <-].
Qed.

Lemma zscores_ascend (i j : nat) :
  (i <= j)%nat ->
  (1 + inject_Z (Z.of_nat i) / 2 <= 1 + inject_Z (Z.of_nat j) / 2)%Q.
Proof.
  intros Hij. apply Qplus_le_compat; [apply Qle_refl|].
  apply Qmult_le_compat_r; [|done]. rewrite <- Zle_Qle. lia.
Qed.

(** X12.  The plotted empirical counts are taken at the fourteen
    thresholds 1, 1.5, .., 7.5; each is at most the number of empirical
    records, and from one threshold to the next they never rise. *)
Theorem zloc_never_rises (min_fdr_degree : Q) (loc : list zrow) :
  length (zloc min_fdr_degree loc) = 14%nat /\
  forall i j a b,
    (i <= j)%nat ->
    zloc min_fdr_degree loc !! i = Some a ->
    zloc min_fdr_degree loc !! j = Some b ->
    0 <= b <= a /\ a <= Z.of_nat (length loc).
Proof.
  split; [reflexivity|].
  intros i j a b Hij. unfold zloc. rewrite !list_lookup_fmap.
  destruct (zscores !! i) as [x|] eqn:Ei; [|done].
  destruct (zscores !! j) as [y|] eqn:Ej; [|done].
  apply zscores_lookup in Ei as [-> _]. apply zscores_lookup in Ej as [-> _].
  cbn. intros [= <-] [= <-]. split; [split; [lia|]|].
  - apply Nat2Z.inj_le, filter_length_le.
    intros r _ [Hz Hl]%Is_true_true%andb_true_iff.
    apply Is_true_true, andb_true_iff. split; [|done].
    eapply ge_antitone; [|exact Hz]. by apply zscores_ascend.
  - apply Nat2Z.inj_le, length_filter.
Qed.

Lemma ratio_le (a b c d : nat) :
  (0 < b)%nat -> (0 < d)%nat -> (a * d <= c * b)%nat ->
  (inject_Z (Z.of_nat a) / inject_Z (Z.of_nat b)
   <= inject_Z (Z.of_nat c) / inject_Z (Z.of_nat d))%Q.
Proof.
  intros Hb Hd Hle.
  assert (Hb' : (0 < inject_Z (Z.of_nat b))%Q).
  { change 0%Q with (inject_Z 0). rewrite <- Zlt_Qlt. lia. }
  assert (Hd' : (0 < inject_Z (Z.of_nat d))%Q).
  { change 0%Q with (inject_Z 0). rewrite <- Zlt_Qlt. lia. }
  apply Qle_shift_div_r; [done|].
  assert (E : (inject_Z (Z.of_nat c) / inject_Z (Z.of_nat d)
               * inject_Z (Z.of_nat b)
               == inject_Z (Z.of_nat c) * inject_Z (Z.of_nat b)
                  / inject_Z (Z.of_nat d))%Q).
  { field. intros Hz. rewrite Hz in Hd'. by apply Qlt_irrefl in Hd'. }
  rewrite E. apply Qle_shift_div_l; [done|].
  rewrite <- !inject_Z_mult, <- Zle_Qle. lia.
Qed.

(** The per-iteration counts of the plot add up to the number of records
    that pass both of its tests. *)
Lemma plot_counts_sum (m : Q) (fdr : list zrow) (x : Q) :
  foldr Z.add 0 (plot_fdr_counts m fdr x)
  = Z.of_nat
      (length
         (filter (fun r : zrow =>
                    Is_true (ge (zscore r) (Fin x) && Qle_bool m (local r)))
                 fdr)).
Proof.
  unfold plot_fdr_counts, groupby_iter_name. rewrite map_map. cbn [snd].
  set (P := fun r : zrow => Is_true (ge (zscore r) (Fin x) && Qle_bool m (local r))).
  erewrite map_ext.
  2:{ intros k. rewrite list_filter_filter.
      rewrite (list_filter_iff _ (fun a : zrow => iter_name a = k /\ P a))
        by (intros a; tauto).
      rewrite <- (list_filter_filter (fun a : zrow => iter_name a = k) P).
      reflexivity. }
  rewrite (group_sizes (filter P fdr)) by apply NoDup_remove_dups.
  rewrite filter_all; [done|].
  intros r [_ Hr]%list_elem_of_filter.
  apply elem_of_remove_dups, list_elem_of_fmap. by exists r.
Qed.

(** X13.  For a non-empty FDR table and an integer threshold, the bootstrap
    count that enters the FDR is never below the mean of the per-iteration
    counts that the plot draws for that threshold. *)
Theorem num_random_not_below_plotted_mean
  (min_fdr_degree : Q) (fdr : list zrow) (t : Z) :
  fdr <> [] ->
  (mean_int (plot_fdr_counts min_fdr_degree fdr (inject_Z t))
   <= num_random fdr t)%Q.
Proof.
  intros Hne. unfold mean_int. rewrite plot_counts_sum.
  unfold plot_fdr_counts. rewrite length_map, groupby_length.
  set (hits' := filter _ fdr).
  set (ks := remove_dups (map (fun r : zrow => iter_name r) fdr)).
  assert (Hks : (0 < length ks)%nat) by (apply remove_dups_nonempty; by destruct fdr).
  assert (Hsub : (length hits' <= length (at_least zscore t fdr))%nat).
  { apply filter_length_le. intros r _ [Hz _]%Is_true_true%andb_true_iff.
    by apply Is_true_true. }
  destruct (decide (at_least zscore t fdr = [])) as [He|Hh].
  - rewrite (num_random_none fdr t He). rewrite He in Hsub. cbn in Hsub.
    replace (length hits') with 0%nat by lia.
    unfold Qle, Qdiv, Qmult. cbn. lia.
  - rewrite (num_random_mean_over_hit_iterations fdr t Hh).
    set (hits := at_least zscore t fdr) in *.
    set (kh := remove_dups (map (fun r : zrow => iter_name r) hits)).
    assert (Hkh : (0 < length kh)%nat)
      by (apply remove_dups_nonempty; by destruct hits).
    assert (Hk : (length kh <= length ks)%nat).
    { apply submseteq_length, NoDup_submseteq; [apply NoDup_remove_dups|].
      intros l. unfold kh, ks. rewrite !elem_of_remove_dups.
      intros (r & -> & [_ Hr]%list_elem_of_filter)%list_elem_of_fmap.
      apply list_elem_of_fmap. by exists r. }
    apply ratio_le; [done|done|]. nia.
Qed.

Lemma num_random_not_below_plotted_mean_witness :
  (mean_int (plot_fdr_counts 0 Samples.fdr (inject_Z 1))
   <= num_random Samples.fdr 1)%Q.
Proof.
  apply (num_random_not_below_plotted_mean 0 Samples.fdr 1). discriminate.
Defined.

End PlotCounts.

(** ** Runs of the command *)

Section PathFacts.

Import Driver.

Local Open Scope string_scope.










Lemma prefix_cons (c : ascii) (a b : string) :
  String.prefix (String c a) (String c b) = String.prefix a b.
Proof. cbn. by destruct (ascii_dec c c). Qed.

Lemma prefix_refl (a : string) : String.prefix a a = true.
Proof. induction a as [|c a IH]; [done|]. by rewrite prefix_cons. Qed.









End PathFacts.

Section RunFacts.

Import Driver.

Context {term table : Type}.
Variable term_id : term -> string.
Variable generate_data : term -> result table.

Local Abbreviation world := (Driver.world term table).
Local Abbreviation written := (Driver.written term table).
Local Abbreviation analyzed := (Driver.analyzed term table).
Local Abbreviation analyze := (Driver.analyze term term_id table generate_data).
Local Abbreviation write_file := (Driver.write_file term table).
Local Abbreviation makedirs := (Driver.makedirs term table).

Lemma written_emit (e : event term table) (w : world) :
  written (emit term table e w)
  = written w ++ match e with WroteCsv _ _ p _ => [p] | _ => [] end.
Proof.
  unfold Driver.written, emit. cbn [trace]. rewrite omap_app.
  by destruct e.
Qed.

Lemma analyzed_emit (e : event term table) (w : world) :
  analyzed (emit term table e w)
  = analyzed w ++ match e with Analyzed _ _ t => [t] | _ => [] end.
Proof.
  unfold Driver.analyzed, emit. cbn [trace]. rewrite omap_app.
  by destruct e.
Qed.

(** Opening a file for writing either raises and changes nothing, or adds
    the file and the event. *)
Lemma write_file_cases (p : string) (e : event term table) (w : world) :
  (exists err, write_file p e w = (w, Raise err)) \/
  write_file p e w
  = (Filesystem term table ({[p]} ∪ paths term table w) (dirs term table w)
                (trace term table w ++ [e]),
     Ok ()).
Proof.
  unfold Driver.write_file.
  destruct (decide (file_in_path term table w p)); [left; by eexists|].
  destruct (decide (p ∈ dirs term table w)); [left; by eexists|].
  destruct (decide _); [by right|left; by eexists].
Qed.

Lemma makedirs_cases (d : string) (w : world) :
  (exists err, makedirs d w = (w, Raise err)) \/
  makedirs d w
  = (Filesystem term table ({[d]} ∪ paths term table w)
                ({[d]} ∪ dirs term table w)
                (trace term table w ++ [MadeDirs term table d]),
     Ok ()).
Proof.
  unfold Driver.makedirs.
  destruct (decide _); [left; by eexists|].
  destruct (decide _); [left; by eexists|by right].
Qed.

Lemma written_saved (p q : string) (w : world) :
  written (write_file p (SavedFig term table q) w).1 = written w.
Proof.
  destruct (write_file_cases p (SavedFig term table q) w) as [[err ->]| ->];
    [done|].
  unfold Driver.written. cbn [fst trace]. by rewrite omap_app, app_nil_r.
Qed.

(** The loop over the terms writes no table. *)
Lemma analyze_written plot out terms : forall acc (w : world),
  written (analyze plot out terms acc w).1 = written w.
Proof.
  induction terms as [|t terms IH]; intros acc w; [done|].
  cbn [Driver.analyze]. destruct (generate_data t) as [loc|e]; [|done].
  destruct plot.
  - pose proof (written_saved (out ++ "_" ++ term_id t ++ ".png")%string
                  (out ++ "_" ++ term_id t ++ ".png")%string
                  (emit term table (Analyzed term table t) w)) as Hs.
    destruct (write_file _ _ _) as [w2 [[]|e]]; cbn [fst] in *.
    + by rewrite IH, Hs, written_emit, app_nil_r.
    + by rewrite Hs, written_emit, app_nil_r.
  - by rewrite IH, written_emit, app_nil_r.
Qed.


Lemma makedirs_ok (d : string) (w : world) :
  (d ∈ paths term table w -> d ∈ dirs term table w) ->
  ~ file_in_path term table w d ->
  makedirs d w
  = (Filesystem term table ({[d]} ∪ paths term table w)
                ({[d]} ∪ dirs term table w)
                (trace term table w ++ [MadeDirs term table d]),
     Ok ()).
Proof.
  intros Hd Hf. unfold Driver.makedirs.
  rewrite decide_False by (intros [H1 H2]; by apply H2, Hd).
  by rewrite decide_False.
Qed.





(** A failing term makes the loop raise. *)
Lemma analyze_some_fail plot out terms (t : term) (e : exn) :
  t ∈ terms -> generate_data t = Raise e ->
  forall acc (w : world),
    exists e', (analyze plot out terms acc w).2 = Raise e'.
Proof.
  intros Ht He. induction terms as [|t0 terms IH]; intros acc w.
  - by apply not_elem_of_nil in Ht.
  - cbn [Driver.analyze].
    destruct (generate_data t0) as [loc|e0] eqn:E0; [|by exists e0].
    apply elem_of_cons in Ht as [->|Ht]; [congruence|].
    destruct (if plot then _ else _) as [w2 [[]|e2]]; [|by exists e2].
    by apply IH.
Qed.

End RunFacts.

Section RunClaims.

Import Driver.

Context {term table : Type}.
Variable term_id : term -> string.
Variable generate_data : term -> result table.

Local Abbreviation world := (Driver.world term table).
Local Abbreviation written := (Driver.written term table).
Local Abbreviation analyzed := (Driver.analyzed term table).
Local Abbreviation analyze := (Driver.analyze term term_id table generate_data).
Local Abbreviation locality := (Driver.locality term term_id table generate_data).
Local Abbreviation makedirs := (Driver.makedirs term table).

(** The world in which the guard is tested when the directory of the
    output path can be made. *)
Lemma guard_world (out : string) (w : world) :
  (dirname out <> ""%string ->
   (dirname out ∈ paths term table w -> dirname out ∈ dirs term table w) /\
   ~ file_in_path term table w (dirname out)) ->
  exists w1,
    (if decide (dirname out <> ""%string) then makedirs (dirname out) w
     else (w, Ok ())) = (w1, Ok ()) /\
    (forall p, p ∈ paths term table w1 <->
               p ∈ paths term table w \/ (dirname out <> ""%string /\ p = dirname out)) /\
    (forall p, p ∈ dirs term table w1 <->
               p ∈ dirs term table w \/ (dirname out <> ""%string /\ p = dirname out)) /\
    written w1 = written w /\ analyzed w1 = analyzed w.
Proof.
  intros Hmk. destruct (decide (dirname out <> ""%string)) as [Hd|Hd].
  - destruct (Hmk Hd) as [Hdir Hfree]. rewrite (makedirs_ok _ _ Hdir Hfree).
    eexists. split; [done|]. cbn [paths dirs].
    split; [|split].
    + intros p. rewrite elem_of_union, elem_of_singleton. tauto.
    + intros p. rewrite elem_of_union, elem_of_singleton. tauto.
    + unfold Driver.written, Driver.analyzed. cbn [trace].
      by rewrite !omap_app, !app_nil_r.
  - exists w. split; [done|]. repeat split; tauto.
Qed.


(** X15.  A run leaves no result table behind in these cases.  When the
    tested guard path exists and the directory of the output path can be
    made, the run stops at once: success, no term analyzed, nothing
    written.  When the run raises, whatever the reason, nothing was
    written.  The run does raise when the guard path is absent and a term
    fails, or no term is given at all.  And when the output path has a
    directory part that is an existing regular file, or a regular file
    stands in its path, making the directory raises and the run ends there,
    whether or not the guard path exists. *)
Theorem run_without_table
  (plot : bool) (out0 : string) (terms : list term) (w : world) :
  let run := locality plot out0 terms w in
  (locality_csv (locality_csv out0) ∈ paths term table w ->
   (dirname (locality_csv out0) <> ""%string ->
    (dirname (locality_csv out0) ∈ paths term table w ->
     dirname (locality_csv out0) ∈ dirs term table w) /\
    ~ file_in_path term table w (dirname (locality_csv out0))) ->
   run.2 = Ok () /\ analyzed run.1 = analyzed w /\ written run.1 = written w) /\
  (forall e, run.2 = Raise e -> written run.1 = written w) /\
  (locality_csv (locality_csv out0) ∉ paths term table w ->
   dirname (locality_csv out0) <> locality_csv (locality_csv out0) ->
   (terms = [] \/ exists t e, t ∈ terms /\ generate_data t = Raise e) ->
   exists e, run.2 = Raise e) /\
  (dirname (locality_csv out0) <> ""%string ->
   (dirname (locality_csv out0) ∈ paths term table w ->
    dirname (locality_csv out0) ∉ dirs term table w ->
    run = (w, Raise FileExistsError)) /\
   ((dirname (locality_csv out0) ∈ paths term table w ->
     dirname (locality_csv out0) ∈ dirs term table w) ->
    file_in_path term table w (dirname (locality_csv out0)) ->
    run = (w, Raise NotADirectoryError))).
Proof.
  cbv zeta. unfold Driver.locality. set (out := locality_csv out0).
  split; [|split; [|split]].
  - intros Hin Hmk.
    destruct (guard_world out w Hmk) as (w1 & -> & Hp1 & Hd1 & Hw1 & Ha1).
    rewrite decide_True by (apply Hp1; by left). cbn [fst snd].
    by rewrite written_emit, analyzed_emit, !app_nil_r, Hw1, Ha1.
  - intros e.
    assert (Hmade : exists w1 r,
      (if decide (dirname out <> ""%string) then makedirs (dirname out) w
       else (w, Ok ())) = (w1, r) /\ written w1 = written w).
    { destruct (decide (dirname out <> ""%string)); [|by exists w, (Ok ())].
      destruct (makedirs_cases (dirname out) w) as [[err ->]| ->];
        [by exists w, (Raise err)|].
      eexists _, _. split; [done|]. unfold Driver.written. cbn [trace].
      by rewrite omap_app, app_nil_r. }
    destruct Hmade as (w1 & r & -> & Hw1).
    destruct r as [[]|e1]; [|done].
    destruct (decide (_ ∈ paths term table w1)); [done|].
    pose proof (analyze_written term_id generate_data plot out terms [] w1) as Hwr.
    rewrite Hw1 in Hwr.
    destruct (analyze plot out terms [] w1) as [w2 [res|e']]; cbn [fst snd] in *.
    + destruct res as [|tbl res]; [done|].
      destruct (write_file_cases out (WroteCsv term table out (tbl :: res)) w2)
        as [[err ->]| ->]; done.
    + done.
  - intros Hguard Hdir Hbad.
    destruct (decide (dirname out <> ""%string)) as [Hd|Hd].
    + destruct (makedirs_cases (dirname out) w) as [[err ->]| ->];
        [by exists err|].
      rewrite decide_False; cycle 1.
      { cbn [paths]. rewrite elem_of_union, elem_of_singleton.
        intros [Heq|Hin]; [by apply Hdir|done]. }
      set (w1 := Filesystem _ _ _ _ _).
      destruct Hbad as [->|(t & e & Ht & He)]; [cbn; by eexists|].
      destruct (analyze_some_fail term_id generate_data plot out terms t e
                  Ht He [] w1) as [e' He'].
      destruct (analyze plot out terms [] w1) as [w2 res].
      cbn [snd] in He'. subst res. cbn. by eexists.
    + rewrite decide_False by done.
      destruct Hbad as [->|(t & e & Ht & He)]; [cbn; by eexists|].
      destruct (analyze_some_fail term_id generate_data plot out terms t e
                  Ht He [] w) as [e' He'].
      destruct (analyze plot out terms [] w) as [w2 res].
      cbn [snd] in He'. subst res. cbn. by eexists.
  - intros Hd. rewrite decide_True by done. unfold Driver.makedirs. split.
    + intros Hin Hnd. by rewrite decide_True.
    + intros Hdir Hin.
      rewrite decide_False by (intros [H1 H2]; by apply H2, Hdir).
      by rewrite decide_True.
Qed.

End RunClaims.

Section RunWitness.

Import Driver.

Local Open Scope string_scope.

(** The guard path may exist and the run still raise: with
    ['d.c.csvsv/x'] the output path is ['d.csv/x_Locality.csv'], the guard
    tests ['d/x_Locality_Locality.csv'], and ['d.csv'] is a regular
    file. *)
Example guard_exists_but_makedirs_raises :
  let w := Filesystem string nat
             {["d"; "d.csv"; "d/x_Locality_Locality.csv"]} {["d"]} [] in
  let run := locality string id nat (fun _ => Ok 1%nat) false "d.c.csvsv/x"
                      ["T1"] w in
  locality_csv "d.c.csvsv/x" = "d.csv/x_Locality.csv" /\
  locality_csv (locality_csv "d.c.csvsv/x") = "d/x_Locality_Locality.csv" /\
  locality_csv (locality_csv "d.c.csvsv/x") ∈ paths string nat w /\
  run = (w, Raise FileExistsError).
Proof. repeat split; by vm_compute. Qed.


End RunWitness.

(** ** Output names *)

Section OutputNames.

Import Driver.

Local Open Scope string_scope.

Lemma remove_csv_suffix_below (n : nat) : forall s,
  (String.length s < n)%nat -> remove_csv (s ++ ".csv") = remove_csv s.
Proof.
  induction n as [|n IH]; intros s Hn; [lia|].
  destruct s as [|c1 s1]; [reflexivity|].
  assert (H1 : String c1 (remove_csv (s1 ++ ".csv"))
               = String c1 (remove_csv s1)).
  { f_equal. apply IH. cbn in Hn. lia. }
  destruct c1 as [[] [] [] [] [] [] [] []]; try exact H1.
  destruct s1 as [|c2 s2]; [reflexivity|].
  destruct c2 as [[] [] [] [] [] [] [] []]; try exact H1.
  destruct s2 as [|c3 s3]; [reflexivity|].
  destruct c3 as [[] [] [] [] [] [] [] []]; try exact H1.
  destruct s3 as [|c4 s4]; [reflexivity|].
  destruct c4 as [[] [] [] [] [] [] [] []]; try exact H1.
  change (remove_csv (s4 ++ ".csv") = remove_csv s4).
  apply IH. cbn in Hn. lia.
Qed.

(** X16.  An output name gives the same result path with and without a
    trailing [.csv]. *)
Theorem csv_extension_is_optional (out : string) :
  remove_csv (out ++ ".csv") = remove_csv out /\
  locality_csv (out ++ ".csv") = locality_csv out.
Proof.
  assert (H : remove_csv (out ++ ".csv") = remove_csv out)
    by (apply (remove_csv_suffix_below (S (String.length out))); lia).
  split; [done|]. unfold locality_csv. by rewrite H.
Qed.

End OutputNames.

(** ** The gene-specific estimate as a whole *)

Section GeneSpecificEstimate.

Import FDR ZScore.

Lemma restrict_global_ok (loc : list zrow) (fdr : list row) :
  loc <> [] ->
  exists kept,
    restrict_global loc fdr = Ok kept /\ forall r, r ∈ kept -> r ∈ fdr.
Proof.
  destruct loc as [|e0 loc]; [done|]. intros _.
  unfold restrict_global. cbn [map max_global mbind result_bind Py.bind].
  eexists. split; [reflexivity|].
  by intros r [_ Hr]%list_elem_of_filter.
Qed.

Lemma with_zscore_total (fit_std : Q -> fl) (t : list row) :
  (forall r, r ∈ t -> is_zero (fit_std (fitted r)) = false) ->
  exists zt, with_zscore fit_std t = Ok zt.
Proof.
  unfold with_zscore. induction t as [|r t IH]; intros Hk; [by eexists|].
  cbn [comprehension].
  destruct (truediv_total (Fin (resid r)) (fit_std (fitted r))) as [z Hz].
  { apply Hk, list_elem_of_here. }
  destruct IH as [zt Hzt].
  { intros r' Hr'. by apply Hk, list_elem_of_further. }
  unfold zscore_of at 1. cbn. rewrite Hz. cbn. rewrite Hzt. cbn. by eexists.
Qed.

(** X18.  In either mode the estimate raises [ValueError] for an empty
    empirical table.  For a non-empty one the gene-specific estimate
    succeeds when no standard deviation estimate is zero, and it returns one
    row per empirical record, at the same position and with the same
    columns plus the [fdr] cell. *)
Theorem gene_specific_estimate
  (fit_std : Q -> fl) (loc : list zrow) (fdr : list row) :
  (forall gene_specific,
     estimate fit_std gene_specific [] fdr = Raise ValueError) /\
  (loc <> [] ->
   (forall r, r ∈ fdr -> is_zero (fit_std (fitted r)) = false) ->
   exists tbl,
     estimate fit_std true loc fdr = Ok (inl tbl) /\
     length tbl = length loc /\
     forall i r, loc !! i = Some r ->
                 exists cell, tbl !! i = Some (FRow r cell)).
Proof.
  split; [done|].
  intros Hne Hk. unfold estimate, scored.
  destruct (restrict_global_ok loc fdr Hne) as (kept & Hkept & Hsub).
  rewrite Hkept. cbn [mbind result_bind Py.bind].
  destruct (with_zscore_total fit_std kept) as [zt Hzt].
  { intros r Hr. apply Hk, Hsub, Hr. }
  rewrite Hzt. cbn [Py.bind].
  eexists. split; [reflexivity|]. split.
  - unfold gene_specific_fdr. by rewrite loop_settles, !length_map.
  - intros i r Hi. rewrite (gene_specific_row _ _ _ _ Hi).
    destruct (last_hit (zscore r) (seqZ 0 8)); by eexists.
Qed.

End GeneSpecificEstimate.
